(** * Retrieval core of the semantic chat application

    A shallow embedding of [semantic_chat.py] (class [SemanticChatEngine]) and
    of the handlers of [app_enhanced.py] that drive it, with the properties of
    the retrieval pipeline stated over that embedding.

    Conventions.
    - A Python [str] is a list of Unicode code points ([N]).
    - A float is an exact rational ([Q]); rounding is not modelled.
    - The models behind the engine (sentence embedding, question answering)
      and FAISS's [normalize_L2] are parameters of the functions that call
      them; a collaborator that raises is a function returning [None].
    - SQLite is a record of tables, each a list of rows in rowid order; a
      connection closed without [commit] leaves the tables as they were. *)

From Stdlib Require Import Ascii String.
From Stdlib Require Import List Bool Arith ZArith NArith QArith Lia Sorted.
Import ListNotations.

(** ** Python strings *)

Module Py.

Definition char := N.
Definition str := list char.

(** A string literal of the source, as code points. *)
Definition lit (s : string) : str :=
  map N_of_ascii (list_ascii_of_string s).

Arguments lit s%_string.

(** [str.isspace] on one code point: the white space [str.strip()] removes. *)
Definition is_space (c : char) : bool :=
  (((9 <=? c) && (c <=? 13)) || ((28 <=? c) && (c <=? 32))
   || (c =? 133) || (c =? 160) || (c =? 5760)
   || ((8192 <=? c) && (c <=? 8202))
   || (c =? 8232) || (c =? 8233) || (c =? 8239) || (c =? 8287)
   || (c =? 12288))%N.

Fixpoint lstrip (s : str) : str :=
  match s with
  | c :: s' => if is_space c then lstrip s' else s
  | [] => []
  end.

Definition rstrip (s : str) : str := rev (lstrip (rev s)).

(** [s.strip()] *)
Definition strip (s : str) : str := rstrip (lstrip s).

(** [sep.join(parts)] *)
Fixpoint join (sep : str) (parts : list str) : str :=
  match parts with
  | [] => []
  | [p] => p
  | p :: ps => p ++ sep ++ join sep ps
  end.

(** Truth value of a list or string: non-empty. *)
Definition truthy {A} (l : list A) : bool :=
  match l with [] => false | _ => true end.

(** [l[i]] with Python's negative indices; [None] is [IndexError]. *)
Definition getitem {A} (l : list A) (i : Z) : option A :=
  let n := Z.of_nat (length l) in
  if (0 <=? i)%Z then nth_error l (Z.to_nat i)
  else if (0 <=? n + i)%Z then nth_error l (Z.to_nat (n + i))
  else None.

(** [enumerate(l)] *)
Fixpoint enumerate_from {A} (i : nat) (l : list A) : list (nat * A) :=
  match l with
  | [] => []
  | x :: l' => (i, x) :: enumerate_from (S i) l'
  end.

Definition enumerate {A} (l : list A) := enumerate_from 0 l.

End Py.

Import Py.

(** ** The chunker *)

Module Chunker.

(** The class [[.!?]] of the pattern [r'[.!?]+']. *)
Definition is_terminal (c : char) : bool :=
  ((c =? 46) || (c =? 33) || (c =? 63))%N.

(** [re.split(r'[.!?]+', text)]: the pieces between maximal runs of
    sentence-terminal characters; a run at either end of the text leaves an
    empty piece there.  [in_run] tells that the previous character belonged
    to a run. *)
Fixpoint re_split_from (in_run : bool) (text : str) : list str :=
  match text with
  | [] => [[]]
  | c :: rest =>
      if is_terminal c then
        if in_run then re_split_from true rest
        else [] :: re_split_from true rest
      else
        match re_split_from false rest with
        | piece :: pieces => (c :: piece) :: pieces
        | [] => [[c]]
        end
  end.

Definition re_split (text : str) : list str := re_split_from false text.

(** The loop state of [chunk_text]: the closed chunks and [current_chunk]. *)
Definition chunk_state := (list str * str)%type.

(** One iteration of [for sentence in sentences]. *)
Definition chunk_step (chunk_size : nat) (st : chunk_state) (sentence : str)
  : chunk_state :=
  let '(chunks, current_chunk) := st in
  let sentence := strip sentence in
  if negb (truthy sentence) then st
  else if length current_chunk + length sentence <? chunk_size then
    (chunks, current_chunk ++ sentence ++ lit ". ")
  else
    ((if truthy current_chunk then chunks ++ [strip current_chunk] else chunks),
     sentence ++ lit ". ").

(** The final flush of [chunk_text]. *)
Definition chunk_flush (st : chunk_state) : list str :=
  let '(chunks, current_chunk) := st in
  if truthy current_chunk then chunks ++ [strip current_chunk] else chunks.

(** [SemanticChatEngine.chunk_text], for an engine whose [chunk_size] is the
    first argument ([self.overlap] is never read). *)
Definition chunk_text (chunk_size : nat) (text : str) : list str :=
  chunk_flush (fold_left (chunk_step chunk_size) (re_split text) ([], [])).

End Chunker.

Import Chunker.

(** ** FAISS: a flat inner-product index *)

Module Faiss.

Definition vec := list Q.

Fixpoint inner_product (u v : vec) : Q :=
  match u, v with
  | x :: u', y :: v' => x * y + inner_product u' v'
  | _, _ => 0
  end.

(** [faiss.IndexFlatIP]: the dimension and the stored rows; [ntotal] is the
    number of rows. *)
Record IndexFlatIP := { d : nat; xb : list vec }.

Definition ntotal (ix : IndexFlatIP) : nat := length (xb ix).

Definition add (ix : IndexFlatIP) (rows : list vec) : IndexFlatIP :=
  {| d := d ix; xb := xb ix ++ rows |}.

(** A hit is a score and a label (the row number, or -1). *)
Definition hit := (Q * Z)%type.

(** The score of an empty result slot: the lowest finite float32. *)
Definition lowest : Q := inject_Z (- (2 ^ 128 - 2 ^ 104)).

(** Insertion into a list ordered by descending score.  FAISS does not say
    how it orders equal scores; here the hit inserted earlier stays first. *)
Fixpoint insert_hit (h : hit) (hs : list hit) : list hit :=
  match hs with
  | [] => [h]
  | h' :: hs' =>
      if Qle_bool (fst h) (fst h') then h' :: insert_hit h hs' else h :: hs
  end.

Definition rank (hs : list hit) : list hit :=
  fold_left (fun acc h => insert_hit h acc) hs [].

Definition labels (n : nat) : list Z := map Z.of_nat (seq 0 n).

(** [index.search(q, k)] for one query row: the [k] best rows by inner
    product, best first; when the index holds fewer than [k] rows the
    remaining slots carry label -1.  FAISS asserts that [k] is positive and
    that the query has the dimension of the index; this is its result when
    both hold. *)
Definition search (ix : IndexFlatIP) (q : vec) (k : nat) : list hit :=
  let ranked :=
    rank (combine (map (inner_product q) (xb ix)) (labels (ntotal ix))) in
  firstn k ranked ++ repeat (lowest, (-1)%Z) (k - length ranked).

End Faiss.

(** ** Tables of [users.db] *)

(** The columns of [stories], [story_chunks] and [conversation_history] that
    the engine and its handlers read or write.  [created_at] is kept for the
    conversation history only, whose readers order by it. *)
Module Story.
Record t := { id : Z; user_id : Z; title : str; content : str }.
End Story.

Module ChunkRow.
Record t :=
  { story_id : Z; chunk_text : str; chunk_index : nat; embedding : Faiss.vec }.
End ChunkRow.

Module Conversation.
Record t :=
  { user_id : Z; question : str; answer : str; sources : option str;
    created_at : nat }.
End Conversation.

Record DB :=
  { stories : list Story.t;
    stories_seq : Z;                 (* largest story id ever given out *)
    story_chunks : list ChunkRow.t;
    conversation_history : list Conversation.t }.

(** ** Engine state *)

(** An entry of [chunk_metadata]. *)
Module Chunk.
Record t := { story_id : Z; chunk_index : nat; chunk_text : str }.
End Chunk.

(** An entry of the list [semantic_search] returns. *)
Module Hit.
Record t := { score : Q; chunk : str; story_id : Z }.
End Hit.

(** The dictionary [process_question] returns; [confidence] is [None] when
    the key is absent. *)
Module Reply.
Record t := { answer : str; sources : list str; confidence : option Q }.
End Reply.

(** The attributes of [SemanticChatEngine] that change or are read. *)
Record Engine :=
  { index : option Faiss.IndexFlatIP;
    engine_chunks : list Chunk.t;    (* self.story_chunks *)
    chunk_size : nat;
    overlap : nat }.

(** [SemanticChatEngine.__init__], and the one instance [chat_engine]. *)
Definition chat_engine : Engine :=
  {| index := None; engine_chunks := []; chunk_size := 512; overlap := 50 |}.

(** ** Exceptions and state *)

Inductive exn := EmbeddingError | IndexError | JSONDecodeError.

Inductive outcome (A : Type) :=
| Return (a : A)
| Raise (e : exn).

Arguments Return {A} a.
Arguments Raise {A} e.

(** The process state: the global engine and the committed database. *)
Record World := { engine : Engine; database : DB }.

Definition M (A : Type) := World -> outcome A * World.

Definition ret {A} (a : A) : M A := fun w => (Return a, w).

Definition bind {A B} (m : M A) (f : A -> M B) : M B :=
  fun w =>
    match m w with
    | (Return a, w') => f a w'
    | (Raise e, w') => (Raise e, w')
    end.

(** [try: body except Exception: handler] *)
Definition try_except {A} (body : M A) (handler : exn -> M A) : M A :=
  fun w =>
    match body w with
    | (Return a, w') => (Return a, w')
    | (Raise e, w') => handler e w'
    end.

Definition get_engine : M Engine := fun w => (Return (engine w), w).

Definition get_db : M DB := fun w => (Return (database w), w).

Definition put_db (db : DB) : M unit :=
  fun w => (Return tt, {| engine := engine w; database := db |}).

Definition lift {A} (o : outcome A) : M A := fun w => (o, w).

Declare Scope py_scope.
Delimit Scope py_scope with py.

Notation "x <- m ;; k" := (bind m (fun x => k))
  (at level 61, m at next level, right associativity) : py_scope.
Notation "m ;; k" := (bind m (fun _ => k))
  (at level 61, right associativity) : py_scope.

(** ** The [json] module, for lists of strings *)

Module Json.

Local Open Scope N_scope.

(** The format [{0:04x}] of a number below [0x10000]. *)
Definition hex_digit (n : N) : char := if n <? 10 then 48 + n else 87 + n.

Definition hex4 (n : N) : str :=
  [hex_digit (n / 4096 mod 16); hex_digit (n / 256 mod 16);
   hex_digit (n / 16 mod 16); hex_digit (n mod 16)].

(** [\uXXXX] *)
Definition u_escape (n : N) : str := 92 :: 117 :: hex4 n.

(** The replacement [py_encode_basestring_ascii] makes for one character:
    [ESCAPE_DCT] for the backslash, the quote and the control characters,
    the character itself from the space to the tilde, and a [\u] escape (a
    surrogate pair above the basic plane) for the rest. *)
Definition escape_char (c : char) : str :=
  if c =? 92 then [92; 92]
  else if c =? 34 then [92; 34]
  else if c =? 8 then [92; 98]
  else if c =? 12 then [92; 102]
  else if c =? 10 then [92; 110]
  else if c =? 13 then [92; 114]
  else if c =? 9 then [92; 116]
  else if (32 <=? c) && (c <=? 126) then [c]
  else if c <? 65536 then u_escape c
  else
    let n := c - 65536 in
    u_escape (N.lor 55296 (N.land (N.shiftr n 10) 1023))
    ++ u_escape (N.lor 56320 (N.land n 1023)).

Definition encode_basestring_ascii (s : str) : str :=
  34 :: flat_map escape_char s ++ [34].

(** The text between the brackets. *)
Definition items (l : list str) : str :=
  join (lit ", ") (map encode_basestring_ascii l).

(** [json.dumps(l)] for a list of strings, with the default separators and
    [ensure_ascii]. *)
Definition dumps (l : list str) : str := 91 :: items l ++ [93].

(** A Unicode scalar value: a code point that is not a surrogate.  These are
    the characters of a string read from a [TEXT] column. *)
Definition is_scalar (c : char) : bool :=
  (c <? 55296) || ((57344 <=? c) && (c <? 1114112)).

Definition valid_titles (l : list str) : bool := forallb (forallb is_scalar) l.

Definition hex_value (c : char) : option N :=
  if (48 <=? c) && (c <=? 57) then Some (c - 48)
  else if (97 <=? c) && (c <=? 102) then Some (c - 87)
  else if (65 <=? c) && (c <=? 70) then Some (c - 55)
  else None.

(** [_decode_uXXXX] on the four characters after [\u]. *)
Definition decode_uXXXX (a b c d : char) : option N :=
  match hex_value a, hex_value b, hex_value c, hex_value d with
  | Some x, Some y, Some z, Some t => Some (((x * 16 + y) * 16 + z) * 16 + t)
  | _, _, _, _ => None
  end.

(** The table [BACKSLASH]. *)
Definition backslash (esc : char) : option char :=
  if esc =? 34 then Some 34
  else if esc =? 92 then Some 92
  else if esc =? 47 then Some 47
  else if esc =? 98 then Some 8
  else if esc =? 102 then Some 12
  else if esc =? 110 then Some 10
  else if esc =? 114 then Some 13
  else if esc =? 116 then Some 9
  else None.

Definition is_high_surrogate (u : N) : bool := (55296 <=? u) && (u <=? 56319).
Definition is_low_surrogate (u : N) : bool := (56320 <=? u) && (u <=? 57343).

Definition push (c : char) (r : option (str * str)) : option (str * str) :=
  match r with
  | Some (s, rest) => Some (c :: s, rest)
  | None => None
  end.

(** [py_scanstring] in strict mode, started after the opening quote: the
    decoded string and the text after the closing quote. *)
Fixpoint scanstring (s : str) : option (str * str) :=
  match s with
  | [] => None
  | c :: rest =>
      if c =? 34 then Some ([], rest)
      else if c =? 92 then
        match rest with
        | [] => None
        | esc :: rest1 =>
            if esc =? 117 then
              match rest1 with
              | h1 :: h2 :: h3 :: h4 :: rest2 =>
                  match decode_uXXXX h1 h2 h3 h4 with
                  | None => None
                  | Some uni =>
                      match rest2 with
                      | b1 :: b2 :: rest3 =>
                          if is_high_surrogate uni && (b1 =? 92) && (b2 =? 117)
                          then
                            match rest3 with
                            | l1 :: l2 :: l3 :: l4 :: rest4 =>
                                match decode_uXXXX l1 l2 l3 l4 with
                                | None => None
                                | Some uni2 =>
                                    if is_low_surrogate uni2 then
                                      push (65536 + N.lor (N.shiftl (uni - 55296) 10)
                                                          (uni2 - 56320))
                                           (scanstring rest4)
                                    else push uni (scanstring rest2)
                                end
                            | _ => None
                            end
                          else push uni (scanstring rest2)
                      | _ => push uni (scanstring rest2)
                      end
                  end
              | _ => None
              end
            else
              match backslash esc with
              | Some ch => push ch (scanstring rest1)
              | None => None
              end
        end
      else if c <? 32 then None
      else push c (scanstring rest)
  end.

(** [WHITESPACE] *)
Definition is_ws (c : char) : bool :=
  (c =? 32) || (c =? 9) || (c =? 10) || (c =? 13).

Fixpoint skip_ws (s : str) : str :=
  match s with
  | c :: rest => if is_ws c then skip_ws rest else s
  | [] => []
  end.

(** The loop of [JSONArray], started at a value.  Each round consumes at
    least the opening quote of a string, so the length of the text is fuel
    enough. *)
Fixpoint array_items (fuel : nat) (s : str) : option (list str * str) :=
  match fuel with
  | O => None
  | S fuel' =>
      match s with
      | c :: rest =>
          if c =? 34 then
            match scanstring rest with
            | None => None
            | Some (value, rest1) =>
                match skip_ws rest1 with
                | c1 :: rest2 =>
                    if c1 =? 93 then Some ([value], rest2)
                    else if c1 =? 44 then
                      match array_items fuel' (skip_ws rest2) with
                      | Some (values, tail) => Some (value :: values, tail)
                      | None => None
                      end
                    else None
                | [] => None
                end
            end
          else None
      | [] => None
      end
  end.

(** [json.loads(s)] on the documents [dumps] writes, arrays of strings.
    [None] is [JSONDecodeError]; a document holding any other kind of value
    is outside this model and is [None] as well. *)
Definition loads (s : str) : option (list str) :=
  match skip_ws s with
  | c :: rest =>
      if c =? 91 then
        let body := skip_ws rest in
        let parsed :=
          match body with
          | c1 :: rest1 =>
              if c1 =? 93 then Some ([], rest1)
              else array_items (length body) body
          | [] => None
          end in
        match parsed with
        | Some (values, tail) =>
            match skip_ws tail with
            | [] => Some values
            | _ => None
            end
        | None => None
        end
      else None
  | [] => None
  end.

End Json.

(** ** [SemanticChatEngine] *)

Local Open Scope Z_scope.

(** The messages of [semantic_chat.py] and of [chat_api]. *)
Definition fallback_answer : str :=
  lit "I couldn't find a specific answer to your question.".

Definition no_information_answer : str :=
  lit "I couldn't find any relevant information in your uploaded stories.".

Definition error_answer : str :=
  lit "I encountered an error processing your question. Please try again.".

Definition no_stories_answer : str :=
  lit "You have no uploaded stories to ask questions about. Please upload some stories first.".

(** The two line feeds between a title and its content, and between the
    chunks of a context. *)
Definition blank_line : str := [10%N; 10%N].

(** [f"{title}\n\n{content}"] *)
Definition full_text (s : Story.t) : str :=
  Story.title s ++ blank_line ++ Story.content s.

(** The entries one story adds to [chunk_metadata]. *)
Definition story_metadata (size : nat) (s : Story.t) : list Chunk.t :=
  map (fun '(idx, chunk) =>
         {| Chunk.story_id := Story.id s; Chunk.chunk_index := idx;
            Chunk.chunk_text := chunk |})
      (enumerate (chunk_text size (full_text s))).

(** [SELECT id, title, content FROM stories WHERE user_id = ?] *)
Definition stories_of (db : DB) (user_id : Z) : list Story.t :=
  filter (fun s => Story.user_id s =? user_id) (stories db).

(** [chunk_metadata] for all the stories of a user. *)
Definition user_metadata (size : nat) (db : DB) (user_id : Z) : list Chunk.t :=
  flat_map (story_metadata size) (stories_of db user_id).

(** The rows of [story_chunks] left by
    [DELETE FROM story_chunks WHERE story_id IN (SELECT id FROM stories WHERE user_id = ?)]. *)
Definition chunks_cleared (db : DB) (user_id : Z) : list ChunkRow.t :=
  filter (fun r =>
            negb (existsb (fun s => Story.id s =? ChunkRow.story_id r)
                          (stories_of db user_id)))
         (story_chunks db).

Definition chunk_rows (metadata : list Chunk.t) (embeddings : list Faiss.vec)
  : list ChunkRow.t :=
  map (fun '(m, e) =>
         {| ChunkRow.story_id := Chunk.story_id m;
            ChunkRow.chunk_text := Chunk.chunk_text m;
            ChunkRow.chunk_index := Chunk.chunk_index m;
            ChunkRow.embedding := e |})
      (combine metadata embeddings).

(** [embeddings.shape[1]] *)
Definition dimension (embeddings : list Faiss.vec) : nat :=
  match embeddings with
  | v :: _ => length v
  | [] => O
  end.

(** [conversation_history] rows of a user, newest first: insertion by
    descending [created_at], a row staying behind the rows of the same
    second that precede it. *)
Fixpoint insert_recent (r : Conversation.t) (rs : list Conversation.t)
  : list Conversation.t :=
  match rs with
  | [] => [r]
  | r' :: rs' =>
      if (Conversation.created_at r <=? Conversation.created_at r')%nat
      then r' :: insert_recent r rs'
      else r :: rs
  end.

Definition order_by_created_at_desc (rs : list Conversation.t)
  : list Conversation.t :=
  fold_left (fun acc r => insert_recent r acc) rs [].

(** [max(scores)] of a non-empty list: the first of the largest. *)
Definition py_max (x : Q) (xs : list Q) : Q :=
  fold_left (fun best y => if Qle_bool y best then best else y) xs x.

Section Collaborators.

(** [self.embedding_model.encode]: one vector per text, or a failure. *)
Variable encode : list str -> option (list Faiss.vec).

(** [faiss.normalize_L2] on one row. *)
Variable normalize_L2 : Faiss.vec -> Faiss.vec.

(** [self.qa_pipeline(question=..., context=...)['answer']], or a failure. *)
Variable qa_pipeline : str -> str -> option str.

Definition generate_embeddings (texts : list str) : outcome (list Faiss.vec) :=
  match encode texts with
  | Some embeddings => Return embeddings
  | None => Raise EmbeddingError
  end.

(** The end of [build_semantic_index], from the insertions into
    [story_chunks] to [conn.commit()]: the new index over the normalised
    embeddings, the new [self.story_chunks], and the committed rows. *)
Definition install (w : World) (user_id : Z) (chunk_metadata : list Chunk.t)
  (embeddings : list Faiss.vec) : World :=
  let self := engine w in
  let db := database w in
  let ix :=
    Faiss.add {| Faiss.d := dimension embeddings; Faiss.xb := [] |}
              (map normalize_L2 embeddings) in
  {| engine :=
       {| index := Some ix;
          engine_chunks := chunk_metadata;
          chunk_size := chunk_size self;
          overlap := overlap self |};
     database :=
       {| stories := stories db;
          stories_seq := stories_seq db;
          story_chunks :=
            chunks_cleared db user_id ++ chunk_rows chunk_metadata embeddings;
          conversation_history := conversation_history db |} |}.

(** [SemanticChatEngine.build_semantic_index].  The deletion and the
    insertions into [story_chunks] reach the database at [conn.commit()]
    only, and the engine's attributes are assigned after the embeddings are
    there: a return or an exception before that leaves the world as it was.
    [embeddings[i]] raises [IndexError] when the model gave fewer vectors
    than there are chunks. *)
Definition build_semantic_index (user_id : Z) : M unit :=
  fun w =>
    let self := engine w in
    let db := database w in
    let rows := stories_of db user_id in
    if negb (truthy rows) then (Return tt, w)
    else
      let chunk_metadata := user_metadata (chunk_size self) db user_id in
      let all_chunks := map Chunk.chunk_text chunk_metadata in
      if negb (truthy all_chunks) then (Return tt, w)
      else
        match generate_embeddings all_chunks with
        | Raise e => (Raise e, w)
        | Return embeddings =>
            if (length embeddings <? length all_chunks)%nat
            then (Raise IndexError, w)
            else (Return tt, install w user_id chunk_metadata embeddings)
        end.

(** [if not self.index: self.build_semantic_index(user_id)], the statement
    [process_question] and [chat_api] both open with. *)
Definition ensure_index (user_id : Z) : M unit :=
  fun w =>
    match index (engine w) with
    | None => build_semantic_index user_id w
    | Some _ => (Return tt, w)
    end.

(** The loop of [semantic_search] over [zip(scores[0], indices[0])]. *)
Fixpoint collect_results (chunks : list Chunk.t) (hits : list Faiss.hit)
  : outcome (list Hit.t) :=
  match hits with
  | [] => Return []
  | (score, idx) :: rest =>
      if idx <? Z.of_nat (length chunks) then
        match getitem chunks idx with
        | None => Raise IndexError
        | Some chunk_info =>
            match collect_results chunks rest with
            | Return results =>
                Return ({| Hit.score := score;
                           Hit.chunk := Chunk.chunk_text chunk_info;
                           Hit.story_id := Chunk.story_id chunk_info |}
                        :: results)
            | Raise e => Raise e
            end
        end
      else collect_results chunks rest
  end.

(** [SemanticChatEngine.semantic_search] *)
Definition semantic_search (self : Engine) (query : str) (top_k : nat)
  : outcome (list Hit.t) :=
  match index self with
  | None => Return []
  | Some ix =>
      if negb (truthy (engine_chunks self)) then Return []
      else
        match generate_embeddings [query] with
        | Raise e => Raise e
        | Return query_embedding =>
            match map normalize_L2 query_embedding with
            | [] => Raise IndexError
            | q :: _ => collect_results (engine_chunks self) (Faiss.search ix q top_k)
            end
        end
  end.

(** [SemanticChatEngine.generate_answer] *)
Definition generate_answer (question context : str) : str :=
  match qa_pipeline question context with
  | Some answer => answer
  | None => fallback_answer
  end.

(** [SemanticChatEngine.save_conversation]; [now] is [CURRENT_TIMESTAMP]. *)
Definition save_conversation (user_id : Z) (question answer : str)
  (sources : list str) (now : nat) : M unit :=
  fun w =>
    let db := database w in
    (Return tt,
     {| engine := engine w;
        database :=
          {| stories := stories db;
             stories_seq := stories_seq db;
             story_chunks := story_chunks db;
             conversation_history :=
               conversation_history db
               ++ [{| Conversation.user_id := user_id;
                      Conversation.question := question;
                      Conversation.answer := answer;
                      Conversation.sources := Some (Json.dumps sources);
                      Conversation.created_at := now |}] |} |}).

(** The context [process_question] hands to the answer model. *)
Definition build_context (search_results : list Hit.t) : str :=
  join blank_line (map Hit.chunk (firstn 3 search_results)).

(** [SELECT id, title FROM stories WHERE id IN (...)], titles only. *)
Definition source_titles (db : DB) (story_ids : list Z) : list str :=
  map Story.title
      (filter (fun s => existsb (Z.eqb (Story.id s)) story_ids) (stories db)).

(** The [confidence] entry of the full reply. *)
Definition confidence_of (search_results : list Hit.t) : Q :=
  match map Hit.score search_results with
  | x :: xs => py_max x xs
  | [] => 0%Q
  end.

(** The dictionary [process_question] returns at its end, over the search
    results it got and the database it read the titles from. *)
Definition full_reply (db : DB) (question : str) (search_results : list Hit.t)
  : Reply.t :=
  {| Reply.answer := generate_answer question (build_context search_results);
     Reply.sources :=
       source_titles db (map Hit.story_id (firstn 3 search_results));
     Reply.confidence := Some (confidence_of search_results) |}.

Local Open Scope py_scope.

(** The [try] block of [process_question]. *)
Definition process_question_body (user_id : Z) (question : str) (now : nat)
  : M Reply.t :=
  ensure_index user_id ;;
  self <- get_engine ;;
  search_results <- lift (semantic_search self question 5) ;;
  if negb (truthy search_results) then
    ret {| Reply.answer := no_information_answer; Reply.sources := [];
           Reply.confidence := None |}
  else
    let context := build_context search_results in
    let answer := generate_answer question context in
    db <- get_db ;;
    let story_ids := map Hit.story_id (firstn 3 search_results) in
    let sources := source_titles db story_ids in
    save_conversation user_id question answer sources now ;;
    ret (full_reply db question search_results).

(** [SemanticChatEngine.process_question] *)
Definition process_question (user_id : Z) (question : str) (now : nat)
  : M Reply.t :=
  try_except (process_question_body user_id question now)
    (fun _ => ret {| Reply.answer := error_answer; Reply.sources := [];
                     Reply.confidence := None |}).

(** ** Handlers of [app_enhanced.py]

    Each handler is taken after authentication, with the id of the user of
    the session.  A raised exception is one no handler code catches. *)

Inductive flash :=
| Story_uploaded
| Story_deleted
| Story_not_found
| Fields_required.

Inductive response :=
| Json (body : Reply.t)
| Server_error.

(** [dashboard] *)
Definition dashboard (user_id : Z) : M unit :=
  build_semantic_index user_id.

Definition insert_story (db : DB) (user_id : Z) (title content : str) : DB :=
  let new_id := stories_seq db + 1 in
  {| stories :=
       stories db
       ++ [{| Story.id := new_id; Story.user_id := user_id;
              Story.title := title; Story.content := content |}];
     stories_seq := new_id;
     story_chunks := story_chunks db;
     conversation_history := conversation_history db |}.

(** [upload_story], the [POST] branch. *)
Definition upload_story (user_id : Z) (title content : str) : M flash :=
  let title := strip title in
  let content := strip content in
  if negb (truthy title) || negb (truthy content) then ret Fields_required
  else
    db <- get_db ;;
    put_db (insert_story db user_id title content) ;;
    build_semantic_index user_id ;;
    ret Story_uploaded.

Definition remove_story (db : DB) (story_id : Z) : DB :=
  {| stories := filter (fun s => negb (Story.id s =? story_id)) (stories db);
     stories_seq := stories_seq db;
     story_chunks := story_chunks db;
     conversation_history := conversation_history db |}.

(** [delete_story] *)
Definition delete_story (user_id : Z) (story_id : Z) : M flash :=
  db <- get_db ;;
  let story :=
    filter (fun s => (Story.id s =? story_id) && (Story.user_id s =? user_id))
           (stories db) in
  if negb (truthy story) then ret Story_not_found
  else
    put_db (remove_story db story_id) ;;
    build_semantic_index user_id ;;
    ret Story_deleted.

(** [chat_api], from the [try] block on: [question] is the stripped,
    non-empty question of the request. *)
Definition chat_api (user_id : Z) (question : str) (now : nat) : M response :=
  try_except
    (db <- get_db ;;
     let story_count := length (stories_of db user_id) in
     if (story_count =? 0)%nat then
       ret (Json {| Reply.answer := no_stories_answer; Reply.sources := [];
                    Reply.confidence := Some 0%Q |})
     else
       ensure_index user_id ;;
       result <- process_question user_id question now ;;
       ret (Json result))
    (fun _ => ret Server_error).

(** The index is the one a rebuild for [user_id] makes of the database as
    it is now: its chunks are those of the user's current stories, its rows
    their normalised embeddings. *)
Definition index_fresh (user_id : Z) (w : World) : Prop :=
  engine_chunks (engine w)
  = user_metadata (chunk_size (engine w)) (database w) user_id
  /\ exists embeddings,
       encode (map Chunk.chunk_text (engine_chunks (engine w)))
       = Some embeddings
       /\ index (engine w)
          = Some {| Faiss.d := dimension embeddings;
                    Faiss.xb := map normalize_L2 embeddings |}.

End Collaborators.

(** ** Reading the history *)

(** An entry of the list [get_chat_history] returns. *)
Module Entry.
Record t :=
  { question : str; answer : str; sources : list str; timestamp : nat }.
End Entry.

(** [json.loads(h[2]) if h[2] else []] *)
Definition read_sources (column : option str) : outcome (list str) :=
  match column with
  | None => Return []
  | Some text =>
      if truthy text then
        match Json.loads text with
        | Some titles => Return titles
        | None => Raise JSONDecodeError
        end
      else Return []
  end.

Fixpoint history_entries (rows : list Conversation.t) : outcome (list Entry.t) :=
  match rows with
  | [] => Return []
  | h :: rest =>
      match read_sources (Conversation.sources h) with
      | Raise e => Raise e
      | Return titles =>
          match history_entries rest with
          | Raise e => Raise e
          | Return entries =>
              Return ({| Entry.question := Conversation.question h;
                         Entry.answer := Conversation.answer h;
                         Entry.sources := titles;
                         Entry.timestamp := Conversation.created_at h |}
                      :: entries)
          end
      end
  end.

(** The query of [get_chat_history]:
    [WHERE user_id = ? ORDER BY created_at DESC LIMIT 10]. *)
Definition recent_rows (db : DB) (user_id : Z) : list Conversation.t :=
  firstn 10
    (order_by_created_at_desc
       (filter (fun r => Conversation.user_id r =? user_id)
               (conversation_history db))).

(** [get_chat_history]: the entries sent back, or the failure its [except]
    clause turns into status 500. *)
Definition get_chat_history (db : DB) (user_id : Z) : outcome (list Entry.t) :=
  history_entries (recent_rows db user_id).

(** No row of [user_id] in the history is as recent as [now]. *)
Definition newest_for (user_id : Z) (now : nat) (db : DB) : bool :=
  forallb (fun r => negb (Conversation.user_id r =? user_id)
                    || (Conversation.created_at r <? now)%nat)
          (conversation_history db).

(** ** Deterministic collaborators and a small database

    Stand-ins for the models, used to run the engine on concrete inputs. *)

Module Stub.

(** A one-dimensional embedding: texts that open with [N] point down, all
    others point up. *)
Definition encode (texts : list str) : option (list Faiss.vec) :=
  Some (map (fun t => match t with
                      | 78%N :: _ => [inject_Z (-1)]
                      | _ => [inject_Z 1]
                      end) texts).

(** An embedding model that is down. *)
Definition encode_fails (texts : list str) : option (list Faiss.vec) := None.

(** L2 normalisation of one-dimensional rows: the sign of the component. *)
Definition normalize_L2 (v : Faiss.vec) : Faiss.vec :=
  match v with
  | [x] => [inject_Z (Z.sgn (Qnum x))]
  | _ => v
  end.

Definition qa_pipeline (question context : str) : option str :=
  Some (lit "an answer").

(** An answer model that raises. *)
Definition qa_fails (question context : str) : option str := None.

(** Two users with one story each. *)
Definition cats : Story.t :=
  {| Story.id := 1; Story.user_id := 1;
     Story.title := lit "Cats"; Story.content := lit "Cats purr. Cats nap." |}.

Definition dogs : Story.t :=
  {| Story.id := 2; Story.user_id := 2;
     Story.title := lit "Dogs"; Story.content := lit "Dogs bark." |}.

Definition two_users : DB :=
  {| stories := [cats; dogs]; stories_seq := 2; story_chunks := [];
     conversation_history := [] |}.

Definition one_user : DB :=
  {| stories := [cats]; stories_seq := 1; story_chunks := [];
     conversation_history := [] |}.

Definition nobody : DB :=
  {| stories := []; stories_seq := 0; story_chunks := [];
     conversation_history := [] |}.

Definition start (db : DB) : World :=
  {| engine := chat_engine; database := db |}.

Definition what : str := lit "what".

(** The process after a rebuild for user 1, with one user and with two. *)
Definition indexed_one : World :=
  snd (build_semantic_index encode normalize_L2 1 (start one_user)).

Definition indexed_two : World :=
  snd (build_semantic_index encode normalize_L2 1 (start two_users)).

(** The only chunk of the story [cats]. *)
Definition cats_chunk : str :=
  lit "Cats" ++ blank_line ++ lit "Cats purr. Cats nap.".

(** What a search over the index of [cats] alone returns for [what]. *)
Definition cats_hits : list Hit.t :=
  {| Hit.score := inject_Z 1; Hit.chunk := cats_chunk; Hit.story_id := 1 |}
  :: repeat {| Hit.score := Faiss.lowest; Hit.chunk := cats_chunk;
               Hit.story_id := 1 |} 4.

(** User 1 uploads a story, then user 2 opens the dashboard. *)
Definition after_upload : World :=
  snd (upload_story encode normalize_L2 1 (lit "Birds") (lit "Birds sing.")
                    (start two_users)).

Definition after_dashboard : World :=
  snd (dashboard encode normalize_L2 2 after_upload).

(** User 1 has asked once, at time 3. *)
Definition asked_once : World :=
  snd (process_question encode normalize_L2 qa_pipeline 1 what 3%nat
                        (start one_user)).

(** Titles with a quote, a backslash, a line feed, an accented letter, a
    character above the basic plane and the euro sign. *)
Definition odd_titles : list str :=
  [lit "Doc 1";
   [34; 92; 10; 233; 128512; 8364]%N;
   []].

(** User 1 deletes the only story there is. *)
Definition after_delete : World :=
  snd (delete_story encode normalize_L2 1 1 indexed_one).

End Stub.

(** ** What a text says

    The characters of a text that are neither white space nor
    sentence-terminal punctuation: the chunker splits on the latter, trims the
    former and writes its own [". "] after every sentence. *)
Definition is_separator (c : char) : bool := is_space c || is_terminal c.

Definition content_of (s : str) : str :=
  filter (fun c => negb (is_separator c)) s.


(** What the loop state of [chunk_text] holds so far. *)
Definition state_content (st : chunk_state) : str :=
  content_of (concat (fst st) ++ snd st).

(** The total length of the chunk texts of some search results. *)
Definition chunk_lengths (results : list Hit.t) : nat :=
  list_sum (map (fun r => length (Hit.chunk r)) results).

(** ** The shape of a chunk *)

(** The text opens with a character that is neither white space nor
    sentence-terminal punctuation. *)
Definition opens_with_content (s : str) : bool :=
  match s with
  | c :: _ => negb (is_separator c)
  | [] => false
  end.

(** A chunk as [chunk_text] closes it: a body that opens with content,
    followed by a full stop. *)
Definition well_shaped (chunk : str) : Prop :=
  exists body, chunk = body ++ [46%N] /\ opens_with_content body = true.

(** The state of the loop of [chunk_text] over the sentences [pieces]: what
    is closed is well shaped, and within the size unless it is one sentence;
    the same holds of the open chunk once closed. *)
Definition within (size : nat) (pieces : list str) (body : str) : Prop :=
  (length body + 1 <= size)%nat
  \/ exists piece, In piece pieces /\ body = strip piece.

Definition closed_ok (size : nat) (pieces : list str) (chunk : str) : Prop :=
  exists body,
    chunk = body ++ [46%N] /\ opens_with_content body = true
    /\ within size pieces body.

Definition open_ok (size : nat) (pieces : list str) (current : str) : Prop :=
  current = []
  \/ exists body,
       current = body ++ lit ". " /\ opens_with_content body = true
       /\ within size pieces body.

Definition state_ok (size : nat) (pieces : list str) (st : chunk_state) : Prop :=
  Forall (closed_ok size pieces) (fst st) /\ open_ok size pieces (snd st).

(** ** More of [semantic_chat.py] *)

(** An entry of the list [get_conversation_context] returns. *)
Module Turn.
Record t := { question : str; answer : str }.
End Turn.

(** [LIMIT n] of SQLite: a negative [n] is no limit. *)
Definition sql_limit {A} (n : Z) (rows : list A) : list A :=
  if n <? 0 then rows else firstn (Z.to_nat n) rows.

(** [SemanticChatEngine.get_conversation_context] *)
Definition get_conversation_context (db : DB) (user_id : Z) (limit : Z)
  : list Turn.t :=
  map (fun h => {| Turn.question := Conversation.question h;
                   Turn.answer := Conversation.answer h |})
      (sql_limit limit
         (order_by_created_at_desc
            (filter (fun r => Conversation.user_id r =? user_id)
                    (conversation_history db)))).

(** The row [save_conversation] writes for a reply. *)
Definition conversation_of (user_id : Z) (question : str) (reply : Reply.t)
  (now : nat) : Conversation.t :=
  {| Conversation.user_id := user_id;
     Conversation.question := question;
     Conversation.answer := Reply.answer reply;
     Conversation.sources := Some (Json.dumps (Reply.sources reply));
     Conversation.created_at := now |}.

(** ** Requests to the application *)

(** The requests that reach the engine, each with the user of its session. *)
Inductive request :=
| Get_dashboard (user_id : Z)
| Post_upload (user_id : Z) (title content : str)
| Post_delete (user_id : Z) (story_id : Z)
| Post_chat (user_id : Z) (question : str) (now : nat).

Section Requests.

Variable encode : list str -> option (list Faiss.vec).
Variable normalize_L2 : Faiss.vec -> Faiss.vec.
Variable qa_pipeline : str -> str -> option str.

(** The world one request leaves, whether its handler returned or raised. *)
Definition handle (w : World) (r : request) : World :=
  match r with
  | Get_dashboard user_id => snd (dashboard encode normalize_L2 user_id w)
  | Post_upload user_id title content =>
      snd (upload_story encode normalize_L2 user_id title content w)
  | Post_delete user_id story_id =>
      snd (delete_story encode normalize_L2 user_id story_id w)
  | Post_chat user_id question now =>
      snd (chat_api encode normalize_L2 qa_pipeline user_id question now w)
  end.

Definition serve (w : World) (requests : list request) : World :=
  fold_left handle requests w.

End Requests.

(** The process at start: the engine as constructed, the tables empty. *)
Definition initial : World :=
  {| engine := chat_engine;
     database := {| stories := []; stories_seq := 0; story_chunks := [];
                    conversation_history := [] |} |}.

(** What every state of the process satisfies: story ids are distinct and
    none is above the last one given out; the chunk size is the one of the
    constructor; the engine has chunks exactly when it has an index, which
    then has a row for each of them. *)
Definition well_formed (w : World) : Prop :=
  NoDup (map Story.id (stories (database w)))
  /\ Forall (fun s => Story.id s <= stories_seq (database w))
            (stories (database w))
  /\ chunk_size (engine w) = 512%nat
  /\ match index (engine w) with
     | None => engine_chunks (engine w) = []
     | Some ix =>
         engine_chunks (engine w) <> []
         /\ (length (engine_chunks (engine w)) <= Faiss.ntotal ix)%nat
     end.

(** ** Accounts: [register] and [login] *)

Module User.
Record t := { id : Z; username : str; email : str; password_hash : str }.
End User.

(** The table [users] and the last id it gave out. *)
Record Accounts := { users : list User.t; users_seq : Z }.

(** The messages [register] collects in [errors], in its order. *)
Inductive register_error :=
| Username_length
| Username_not_alnum
| Email_invalid
| Password_short.

Inductive register_result :=
| Register_rejected (errors : list register_error)
| Register_exists
| Register_done.

(** [a == b] on strings, the comparison of [WHERE username = ?]. *)
Fixpoint str_eqb (a b : str) : bool :=
  match a, b with
  | [], [] => true
  | x :: a', y :: b' => (x =? y)%N && str_eqb a' b'
  | _, _ => false
  end.

Section Accounts.

(** [str.isalnum], [str.lower] and [re.match(email_pattern, _)]. *)
Variable isalnum : str -> bool.
Variable lower : str -> str.
Variable email_matches : str -> bool.

(** werkzeug's password hashing and the JWT of [generate_token]. *)
Variable generate_password_hash : str -> str.
Variable check_password_hash : str -> str -> bool.
Variable generate_token : Z -> str.

(** The validation of [register]. *)
Definition register_errors (username email password : str)
  : list register_error :=
  (if (length username <? 3)%nat || (20 <? length username)%nat
   then [Username_length] else [])
  ++ (if negb (isalnum username) then [Username_not_alnum] else [])
  ++ (if negb (email_matches email) then [Email_invalid] else [])
  ++ (if (length password <? 6)%nat then [Password_short] else []).

(** [SELECT id FROM users WHERE username = ? OR email = ?] *)
Definition existing_users (a : Accounts) (username email : str)
  : list User.t :=
  filter (fun u => str_eqb (User.username u) username
                   || str_eqb (User.email u) email)
         (users a).

(** [register], the [POST] branch, on the fields of the form. *)
Definition register (username email password : str) (a : Accounts)
  : register_result * Accounts :=
  let username := strip username in
  let email := lower (strip email) in
  let errors := register_errors username email password in
  if (0 <? length errors)%nat then (Register_rejected errors, a)
  else if truthy (existing_users a username email) then (Register_exists, a)
  else
    (Register_done,
     {| users :=
          users a
          ++ [{| User.id := users_seq a + 1;
                 User.username := username;
                 User.email := email;
                 User.password_hash := generate_password_hash password |}];
        users_seq := users_seq a + 1 |}).

(** [login], the [POST] branch: the token put in the session, or [None]
    for the message about an invalid username or password. *)
Definition login (username password : str) (a : Accounts) : option str :=
  let username := strip username in
  match filter (fun u => str_eqb (User.username u) username) (users a) with
  | user :: _ =>
      if check_password_hash (User.password_hash user) password
      then Some (generate_token (User.id user))
      else None
  | [] => None
  end.

End Accounts.

(** The accounts reached so far keep user names and addresses distinct. *)
Definition accounts_distinct (a : Accounts) : Prop :=
  NoDup (map User.username (users a))
  /\ NoDup (map User.email (users a))
  /\ NoDup (map User.id (users a))
  /\ Forall (fun u => User.id u <= users_seq a) (users a).

(** ** Stand-ins for the account libraries *)

Module AccountStub.

Definition is_alnum_char (c : char) : bool :=
  (((48 <=? c) && (c <=? 57)) || ((65 <=? c) && (c <=? 90))
   || ((97 <=? c) && (c <=? 122)))%N.

(** [str.isalnum] on ASCII text. *)
Definition isalnum (s : str) : bool := truthy s && forallb is_alnum_char s.

(** [str.lower] on ASCII text. *)
Definition lower (s : str) : str :=
  map (fun c => if ((65 <=? c) && (c <=? 90))%N then (c + 32)%N else c) s.

(** A pattern that asks for an [@] only. *)
Definition email_matches (s : str) : bool := existsb (N.eqb 64) s.

Definition generate_password_hash (password : str) : str :=
  lit "hash:" ++ password.

Definition check_password_hash (pwhash password : str) : bool :=
  str_eqb pwhash (lit "hash:" ++ password).

Definition generate_token (user_id : Z) : str :=
  lit "token" ++ repeat 33%N (Z.to_nat user_id).

Definition nobody : Accounts := {| users := []; users_seq := 0 |}.

(** The accounts after [alice] has registered. *)
Definition alice_registered : Accounts :=
  snd (register isalnum lower email_matches generate_password_hash
                (lit "  alice ") (lit " Alice@Example.org") (lit "secret1")
                nobody).

End AccountStub.

(** A session: user 1 uploads, both users ask, user 1 deletes the story. *)
Definition session : list request :=
  [Post_upload 1 (lit " Cats ") (lit "Cats purr. Cats nap.");
   Post_chat 1 (lit "what") 1%nat;
   Get_dashboard 2;
   Post_chat 2 (lit "what") 2%nat;
   Post_delete 1 1].

(** * Properties *)

Example chunk_text_two_sentences :
  chunk_text 512 (lit "The cat sat. It was happy!") = [lit "The cat sat. It was happy."].
Proof. vm_compute. reflexivity. Qed.

Example chunk_text_small_size :
  chunk_text 10 (lit "Hello there?  General!! ...") = [lit "Hello there."; lit "General."].
Proof. vm_compute. reflexivity. Qed.

Example chunk_text_oversized_sentence :
  chunk_text 8 (lit "Short. A sentence longer than eight. End")
  = [lit "Short."; lit "A sentence longer than eight."; lit "End."].
Proof. vm_compute. reflexivity. Qed.

Example re_split_edges :
  re_split (lit ".a..b.") = [lit ""; lit "a"; lit "b"; lit ""].
Proof. vm_compute. reflexivity. Qed.

(** ** Chunking loses nothing *)

Section ChunkerFacts.

Variable size : nat.

Lemma content_of_app s t : content_of (s ++ t) = content_of s ++ content_of t.
Proof. apply filter_app. Qed.

Lemma content_of_lstrip s : content_of (lstrip s) = content_of s.
Proof.
  induction s as [|c s IH]; simpl; [reflexivity|].
  destruct (is_space c) eqn:E.
  - rewrite IH. unfold is_separator. rewrite E. reflexivity.
  - reflexivity.
Qed.

Lemma content_of_rev s : content_of (rev s) = rev (content_of s).
Proof. apply filter_rev. Qed.

Lemma content_of_strip s : content_of (strip s) = content_of s.
Proof.
  unfold strip, rstrip.
  rewrite content_of_rev, content_of_lstrip, content_of_rev, rev_involutive.
  apply content_of_lstrip.
Qed.

Lemma content_of_joiner s : content_of (s ++ lit ". ") = content_of s.
Proof. rewrite content_of_app. simpl. apply app_nil_r. Qed.

Lemma content_of_re_split_from b text :
  content_of (concat (re_split_from b text)) = content_of text.
Proof.
  revert b. induction text as [|c rest IH]; intro b; simpl; [reflexivity|].
  destruct (is_terminal c) eqn:T.
  - assert (S : is_separator c = true)
      by (unfold is_separator; rewrite T; apply orb_true_r).
    rewrite S. simpl. destruct b; simpl; apply IH.
  - specialize (IH false).
    destruct (re_split_from false rest) as [|piece pieces]; simpl in *;
      rewrite <- IH; destruct (is_separator c); reflexivity.
Qed.

Lemma content_of_close chunks current :
  content_of (concat (chunks ++ [strip current])) =
  content_of (concat chunks ++ current).
Proof.
  rewrite concat_app. simpl. rewrite app_nil_r, !content_of_app.
  now rewrite content_of_strip.
Qed.

Lemma strip_nothing s : truthy (strip s) = false -> content_of s = [].
Proof.
  intro H. rewrite <- content_of_strip.
  destruct (strip s); [reflexivity | discriminate].
Qed.

Lemma chunk_step_content st sentence :
  state_content (chunk_step size st sentence) =
  state_content st ++ content_of sentence.
Proof.
  destruct st as [chunks current]. unfold chunk_step, state_content.
  destruct (truthy (strip sentence)) eqn:E; simpl negb; cbv iota.
  - destruct (length current + length (strip sentence) <? size)%nat; simpl fst; simpl snd.
    + rewrite !content_of_app, content_of_strip.
      change (content_of (lit ". ")) with (@nil char).
      now rewrite app_nil_r, app_assoc.
    + rewrite content_of_app, content_of_joiner, content_of_strip.
      f_equal.
      destruct current as [|c current']; simpl truthy; cbv iota.
      * now rewrite app_nil_r.
      * apply content_of_close.
  - rewrite (strip_nothing _ E). now rewrite app_nil_r.
Qed.

Lemma chunk_loop_content sentences st :
  state_content (fold_left (chunk_step size) sentences st) =
  state_content st ++ content_of (concat sentences).
Proof.
  revert st. induction sentences as [|s sentences IH]; intro st; simpl.
  - now rewrite app_nil_r.
  - rewrite IH, chunk_step_content, content_of_app. now rewrite app_assoc.
Qed.

Lemma chunk_flush_content st :
  content_of (concat (chunk_flush st)) = state_content st.
Proof.
  destruct st as [chunks current]. unfold chunk_flush, state_content.
  destruct current as [|c current']; simpl truthy; cbv iota; simpl fst; simpl snd.
  - now rewrite app_nil_r.
  - apply content_of_close.
Qed.


End ChunkerFacts.


(** ** The sources of a conversation, written and read back *)

Module JsonFacts.

Import Json.

Local Open Scope N_scope.

Lemma lor_pow2_add a b k : b < 2 ^ k -> N.lor (a * 2 ^ k) b = a * 2 ^ k + b.
Proof.
  intro Hb.
  assert (H0 : N.land (a * 2 ^ k) b = 0).
  { apply N.bits_inj. intro m. rewrite N.land_spec, N.bits_0.
    destruct (N.lt_ge_cases m k) as [Hlt|Hge].
    - now rewrite N.mul_pow2_bits_low.
    - rewrite <- (N.mod_small b (2 ^ k)) by exact Hb.
      rewrite N.mod_pow2_bits_high by exact Hge. apply andb_false_r. }
  now rewrite N.add_nocarry_lxor, N.lxor_lor.
Qed.

Lemma hex_value_digit d : d < 16 -> hex_value (hex_digit d) = Some d.
Proof.
  intro H. unfold hex_digit, hex_value.
  destruct (N.ltb_spec d 10).
  - replace ((48 <=? 48 + d) && (48 + d <=? 57)) with true.
    + f_equal. lia.
    + symmetry. apply andb_true_iff. split; apply N.leb_le; lia.
  - replace ((48 <=? 87 + d) && (87 + d <=? 57)) with false.
    + replace ((97 <=? 87 + d) && (87 + d <=? 102)) with true.
      * f_equal. lia.
      * symmetry. apply andb_true_iff. split; apply N.leb_le; lia.
    + symmetry. apply andb_false_iff. right. apply N.leb_gt. lia.
Qed.

Lemma hex4_digits n :
  n < 65536 ->
  ((n / 4096 mod 16 * 16 + n / 256 mod 16) * 16 + n / 16 mod 16) * 16
  + n mod 16 = n.
Proof.
  intro H. zify. Z.to_euclidean_division_equations. lia.
Qed.

Lemma decode_hex4 n :
  n < 65536 ->
  decode_uXXXX (hex_digit (n / 4096 mod 16)) (hex_digit (n / 256 mod 16))
               (hex_digit (n / 16 mod 16)) (hex_digit (n mod 16)) = Some n.
Proof.
  intro H. unfold decode_uXXXX.
  rewrite !hex_value_digit by (apply N.mod_lt; discriminate).
  now rewrite hex4_digits.
Qed.


Lemma scan_plain c tail :
  (c =? 34) = false -> (c =? 92) = false -> (c <? 32) = false ->
  scanstring (c :: tail) = push c (scanstring tail).
Proof. intros H1 H2 H3. simpl. now rewrite H1, H2, H3. Qed.

Lemma scan_u_escape u tail :
  u < 65536 -> is_high_surrogate u = false ->
  scanstring (u_escape u ++ tail) = push u (scanstring tail).
Proof.
  intros Hu Hh. unfold u_escape, hex4.
  cbn [app scanstring N.eqb Pos.eqb].
  rewrite (decode_hex4 _ Hu), Hh.
  destruct tail as [|b1 [|b2 rest]]; reflexivity.
Qed.

Lemma scan_surrogate_pair hi lo tail :
  hi < 65536 -> lo < 65536 ->
  is_high_surrogate hi = true -> is_low_surrogate lo = true ->
  scanstring (u_escape hi ++ u_escape lo ++ tail) =
  push (65536 + N.lor (N.shiftl (hi - 55296) 10) (lo - 56320))
       (scanstring tail).
Proof.
  intros Hhi Hlo Hh Hl. unfold u_escape, hex4.
  cbn [app scanstring N.eqb Pos.eqb andb].
  rewrite (decode_hex4 _ Hhi), Hh.
  cbn [andb N.eqb Pos.eqb].
  now rewrite (decode_hex4 _ Hlo), Hl.
Qed.


(** The surrogates [escape_char] writes for a character above the basic
    plane. *)
Lemma high_surrogate_of n :
  n < 1048576 ->
  N.lor 55296 (N.land (N.shiftr n 10) 1023) = 55296 + n / 1024.
Proof.
  intro H.
  change 1023 with (N.ones 10). rewrite N.land_ones, N.shiftr_div_pow2.
  change (2 ^ 10) with 1024.
  assert (n / 1024 < 1024) by (apply N.Div0.div_lt_upper_bound; lia).
  rewrite N.mod_small by assumption.
  change 55296 with (54 * 2 ^ 10). now apply lor_pow2_add.
Qed.

Lemma low_surrogate_of n :
  N.lor 56320 (N.land n 1023) = 56320 + n mod 1024.
Proof.
  change 1023 with (N.ones 10). rewrite N.land_ones.
  change (2 ^ 10) with 1024.
  change 56320 with (55 * 2 ^ 10). apply lor_pow2_add.
  apply N.mod_lt. discriminate.
Qed.

Lemma surrogates_combine n :
  n < 1048576 ->
  65536 + N.lor (N.shiftl (55296 + n / 1024 - 55296) 10)
                (56320 + n mod 1024 - 56320) = 65536 + n.
Proof.
  intro H. f_equal.
  rewrite (N.add_comm 55296), (N.add_comm 56320), !N.add_sub.
  rewrite N.shiftl_mul_pow2, lor_pow2_add
    by (apply N.mod_lt; discriminate).
  change (2 ^ 10) with 1024.
  rewrite (N.div_mod n 1024) at 3 by discriminate. apply N.add_cancel_r, N.mul_comm.
Qed.

Lemma scan_escape c tail :
  is_scalar c = true ->
  scanstring (escape_char c ++ tail) = push c (scanstring tail).
Proof.
  intro Hc. unfold escape_char.
  destruct (N.eqb_spec c 92) as [->|N92]; [reflexivity|].
  destruct (N.eqb_spec c 34) as [->|N34]; [reflexivity|].
  destruct (N.eqb_spec c 8) as [->|N8]; [reflexivity|].
  destruct (N.eqb_spec c 12) as [->|N12]; [reflexivity|].
  destruct (N.eqb_spec c 10) as [->|N10]; [reflexivity|].
  destruct (N.eqb_spec c 13) as [->|N13]; [reflexivity|].
  destruct (N.eqb_spec c 9) as [->|N9]; [reflexivity|].
  unfold is_scalar in Hc.
  destruct ((32 <=? c) && (c <=? 126)) eqn:Hp.
  - apply andb_true_iff in Hp. destruct Hp as [Hlo Hhi].
    apply N.leb_le in Hlo.
    apply scan_plain; [now apply N.eqb_neq | now apply N.eqb_neq|].
    apply N.ltb_ge. exact Hlo.
  - destruct (N.ltb_spec c 65536) as [Hb|Hb].
    + apply scan_u_escape; [exact Hb|].
      unfold is_high_surrogate.
      apply orb_true_iff in Hc. destruct Hc as [Hc|Hc].
      * apply N.ltb_lt in Hc. apply andb_false_iff. left.
        apply N.leb_gt. exact Hc.
      * apply andb_true_iff in Hc. destruct Hc as [Hc _].
        apply N.leb_le in Hc. apply andb_false_iff. right.
        apply N.leb_gt. lia.
    + assert (Hn : c - 65536 < 1048576).
      { apply orb_true_iff in Hc. destruct Hc as [Hc|Hc].
        - apply N.ltb_lt in Hc. lia.
        - apply andb_true_iff in Hc. destruct Hc as [_ Hc].
          apply N.ltb_lt in Hc. lia. }
      cbv zeta. rewrite high_surrogate_of, low_surrogate_of by exact Hn.
      assert (Hq : (c - 65536) / 1024 < 1024)
        by (apply N.Div0.div_lt_upper_bound; lia).
      assert (Hr : (c - 65536) mod 1024 < 1024)
        by (apply N.mod_lt; discriminate).
      rewrite <- app_assoc, scan_surrogate_pair.
      * rewrite surrogates_combine by exact Hn.
        replace (65536 + (c - 65536)) with c by lia. reflexivity.
      * revert Hq. generalize ((c - 65536) / 1024). intros; lia.
      * revert Hr. generalize ((c - 65536) mod 1024). intros; lia.
      * revert Hq. generalize ((c - 65536) / 1024). intros q Hq.
        unfold is_high_surrogate. apply andb_true_iff.
        split; apply N.leb_le; lia.
      * revert Hr. generalize ((c - 65536) mod 1024). intros r Hr.
        unfold is_low_surrogate. apply andb_true_iff.
        split; apply N.leb_le; lia.
Qed.

Lemma scan_encoded s tail :
  forallb is_scalar s = true ->
  scanstring (flat_map escape_char s ++ 34 :: tail) = Some (s, tail).
Proof.
  induction s as [|c s IH]; intro H.
  - reflexivity.
  - simpl in H. apply andb_true_iff in H. destruct H as [Hc Hs].
    simpl flat_map. rewrite <- app_assoc, scan_escape by exact Hc.
    now rewrite IH.
Qed.


Lemma items_cons x l :
  items (x :: l) =
  34 :: flat_map escape_char x
     ++ 34 :: match l with
              | [] => []
              | _ :: _ => 44 :: 32 :: items l
              end.
Proof.
  unfold items, encode_basestring_ascii.
  destruct l as [|y l]; simpl; rewrite <- ?app_assoc; reflexivity.
Qed.

Lemma skip_ws_items x l tail :
  skip_ws (items (x :: l) ++ tail) = items (x :: l) ++ tail.
Proof. rewrite items_cons. reflexivity. Qed.

Lemma array_items_encoded l x fuel tail :
  valid_titles (x :: l) = true ->
  (length l < fuel)%nat ->
  array_items fuel (items (x :: l) ++ 93 :: tail) = Some (x :: l, tail).
Proof.
  revert x fuel. induction l as [|y l IH]; intros x fuel Hv Hf;
    (destruct fuel as [|fuel]; [inversion Hf|]);
    simpl in Hv; apply andb_true_iff in Hv; destruct Hv as [Hx Hl];
    rewrite items_cons; cbn [array_items app N.eqb Pos.eqb];
    rewrite <- app_assoc; cbn [app]; rewrite (scan_encoded _ _ Hx).
  - reflexivity.
  - cbn [skip_ws is_ws app N.eqb Pos.eqb orb].
    rewrite skip_ws_items, IH; [reflexivity | exact Hl | simpl in Hf; lia].
Qed.

Lemma items_length l : (length l <= length (items l))%nat.
Proof.
  induction l as [|x l IH]; [apply Nat.le_refl|].
  rewrite items_cons. cbn [length]. rewrite length_app.
  destruct l as [|y l]; cbn [length] in *; lia.
Qed.

(** What [dumps] writes, [loads] reads back. *)
Lemma loads_dumps l : valid_titles l = true -> loads (dumps l) = Some l.
Proof.
  intro Hv. unfold dumps. fold (items l). unfold loads.
  cbn [skip_ws is_ws N.eqb Pos.eqb orb].
  destruct l as [|x l]; [reflexivity|].
  pose proof (items_length (x :: l)) as Hlen.
  rewrite skip_ws_items.
  rewrite items_cons at 1. cbn [app N.eqb Pos.eqb].
  rewrite array_items_encoded; [reflexivity | exact Hv|].
  rewrite length_app. cbn [length] in *. lia.
Qed.

End JsonFacts.

(** ** Reading the history back *)

Section HistoryFacts.

Lemma read_sources_dumps titles :
  Json.valid_titles titles = true ->
  read_sources (Some (Json.dumps titles)) = Return titles.
Proof.
  intro Hv. unfold read_sources.
  change (truthy (Json.dumps titles)) with true. cbv iota.
  now rewrite JsonFacts.loads_dumps.
Qed.

Lemma insert_recent_In r x rows :
  In r (insert_recent x rows) -> r = x \/ In r rows.
Proof.
  induction rows as [|r' rows IH]; simpl.
  - intros [<-|[]]. now left.
  - destruct (Conversation.created_at x <=? Conversation.created_at r')%nat.
    + intros [<-|H]; [right; now left|].
      destruct (IH H) as [->|H']; [now left | right; now right].
    + intros [<-|H]; [now left | now right].
Qed.

Lemma order_by_created_at_desc_In r rows :
  In r (order_by_created_at_desc rows) -> In r rows.
Proof.
  unfold order_by_created_at_desc.
  assert (G : forall acc,
             In r (fold_left (fun acc r => insert_recent r acc) rows acc) ->
             In r rows \/ In r acc).
  { induction rows as [|x rows IH]; intros acc H; simpl in *.
    - now right.
    - destruct (IH _ H) as [H'|H']; [left; now right|].
      destruct (insert_recent_In _ _ _ H') as [->|H'']; [left; now left|].
      now right. }
  intro H. destruct (G [] H) as [H'|[]]. exact H'.
Qed.

Lemma insert_recent_newest x rows :
  (forall r, In r rows ->
             (Conversation.created_at r < Conversation.created_at x)%nat) ->
  insert_recent x rows = x :: rows.
Proof.
  destruct rows as [|r rows]; intro H; simpl; [reflexivity|].
  assert (Hr := H r (or_introl eq_refl)).
  apply Nat.leb_gt in Hr. now rewrite Hr.
Qed.

Lemma history_entries_firstn rows entries n :
  history_entries rows = Return entries ->
  history_entries (firstn n rows) = Return (firstn n entries).
Proof.
  revert entries n. induction rows as [|h rows IH]; intros entries n H.
  - inversion H. now rewrite !firstn_nil.
  - simpl in H.
    destruct (read_sources (Conversation.sources h)) as [titles|] eqn:Hr;
      [|discriminate].
    destruct (history_entries rows) as [es|] eqn:He; [|discriminate].
    inversion H. subst. destruct n as [|n]; [reflexivity|].
    simpl. now rewrite Hr, (IH es n eq_refl).
Qed.

(** C10.  A list of titles made of Unicode scalar values is saved with a
    conversation at a time later than every conversation of the user so far;
    then [get_chat_history], which could read the history before, returns the
    new conversation first, with exactly the titles that were saved. *)
Theorem saved_sources_read_back
  user_id question answer sources now w old :
  Json.valid_titles sources = true ->
  newest_for user_id now (database w) = true ->
  get_chat_history (database w) user_id = Return old ->
  get_chat_history
    (database (snd (save_conversation user_id question answer sources now w)))
    user_id
  = Return ({| Entry.question := question; Entry.answer := answer;
               Entry.sources := sources; Entry.timestamp := now |}
            :: firstn 9 old).
Proof.
  intros Hv Hnew Hold.
  unfold get_chat_history, recent_rows in *.
  cbn [save_conversation snd database conversation_history].
  rewrite filter_app. cbn [filter Conversation.user_id]. rewrite Z.eqb_refl.
  unfold order_by_created_at_desc in *. rewrite fold_left_app.
  cbn [fold_left]. rewrite insert_recent_newest.
  - rewrite firstn_cons.
    cbn [history_entries Conversation.sources Conversation.question
         Conversation.answer Conversation.created_at].
    rewrite (read_sources_dumps _ Hv).
    match goal with
    | |- context [history_entries (firstn 9 ?l)] =>
        rewrite <- (firstn_firstn l 9 10 : firstn 9 (firstn 10 l) = firstn 9 l)
    end.
    now rewrite (history_entries_firstn _ _ 9 Hold).
  - intros r Hr. cbn [Conversation.created_at].
    apply order_by_created_at_desc_In, filter_In in Hr.
    destruct Hr as [Hin Hu].
    unfold newest_for in Hnew. rewrite forallb_forall in Hnew.
    specialize (Hnew r Hin). rewrite Hu in Hnew. simpl in Hnew.
    now apply Nat.ltb_lt.
Qed.

End HistoryFacts.

(** ** The engine *)

Section EngineFacts.

Variable encode : list str -> option (list Faiss.vec).
Variable normalize_L2 : Faiss.vec -> Faiss.vec.
Variable qa_pipeline : str -> str -> option str.

Local Abbreviation build := (build_semantic_index encode normalize_L2).
Local Abbreviation ensure := (ensure_index encode normalize_L2).
Local Abbreviation search := (semantic_search encode normalize_L2).
Local Abbreviation ask := (process_question encode normalize_L2 qa_pipeline).
Local Abbreviation answer_of := (generate_answer qa_pipeline).

(** The world [save_conversation] leaves. *)
Local Abbreviation saved user_id question answer sources now w :=
  (snd (save_conversation user_id question answer sources now w)).

Lemma process_question_with_results user_id question now w w1 results :
  ensure user_id w = (Return tt, w1) ->
  search (engine w1) question 5 = Return results ->
  truthy results = true ->
  ask user_id question now w =
  (Return (full_reply qa_pipeline (database w1) question results),
   saved user_id question
         (answer_of question (build_context results))
         (source_titles (database w1) (map Hit.story_id (firstn 3 results)))
         now w1).
Proof.
  intros He Hs Hne.
  unfold process_question, try_except, process_question_body, bind.
  rewrite He. unfold get_engine, lift. rewrite Hs.
  destruct results as [|r results]; [discriminate|].
  reflexivity.
Qed.

Lemma process_question_without_results user_id question now w w1 :
  ensure user_id w = (Return tt, w1) ->
  search (engine w1) question 5 = Return [] ->
  ask user_id question now w =
  (Return {| Reply.answer := no_information_answer; Reply.sources := [];
             Reply.confidence := None |}, w1).
Proof.
  intros He Hs.
  unfold process_question, try_except, process_question_body, bind.
  rewrite He. unfold get_engine, lift. rewrite Hs. reflexivity.
Qed.

(** [process_question] never raises. *)
Lemma process_question_returns user_id question now w :
  exists reply w', ask user_id question now w = (Return reply, w').
Proof.
  unfold process_question, try_except.
  destruct (process_question_body encode normalize_L2 qa_pipeline
              user_id question now w) as [[reply|e] w'].
  - now exists reply, w'.
  - unfold ret. eauto.
Qed.

(** *** Context assembly *)

(** C7, as the code has it.  The context is the chunk texts of the first
    three results (or of all of them when there are fewer), whole and in
    ranked order, with a blank line between two of them; its length is the sum
    of their lengths plus two per separator, with no bound applied. *)
Theorem build_context_joins_whole_chunks (results : list Hit.t) :
  build_context results =
    match results with
    | [] => []
    | [a] => Hit.chunk a
    | [a; b] => Hit.chunk a ++ blank_line ++ Hit.chunk b
    | a :: b :: c :: _ =>
        Hit.chunk a ++ blank_line ++ Hit.chunk b ++ blank_line ++ Hit.chunk c
    end
  /\ length (build_context results) =
     (chunk_lengths (firstn 3 results)
      + 2 * (Nat.min 3 (length results) - 1))%nat.
Proof.
  unfold build_context, chunk_lengths.
  destruct results as [|a [|b [|c rest]]]; simpl; split; try reflexivity;
    repeat (rewrite length_app; simpl); lia.
Qed.

(** C7, as stated, fails: no maximum bounds the length of the context. *)
Lemma build_context_unbounded :
  ~ exists max_length : nat,
      forall results : list Hit.t,
        (length (build_context results) <= max_length)%nat.
Proof.
  intros [m H].
  specialize (H [{| Hit.score := 0%Q; Hit.chunk := repeat 97%N (S m);
                    Hit.story_id := 1 |}]).
  unfold build_context in H. simpl in H. rewrite repeat_length in H. lia.
Qed.

(** *** Answer synthesis *)

(** C9.  When the answer model raises on the question and the context of
    non-empty search results, [generate_answer] yields the fixed fallback
    message and [process_question] returns the full reply with that message
    as its answer, recording the same in the conversation history; nothing is
    raised to the caller. *)
Theorem synthesis_failure_falls_back user_id question now w w1 results :
  ensure user_id w = (Return tt, w1) ->
  search (engine w1) question 5 = Return results ->
  truthy results = true ->
  qa_pipeline question (build_context results) = None ->
  answer_of question (build_context results) = fallback_answer
  /\ ask user_id question now w =
     (Return
        {| Reply.answer := fallback_answer;
           Reply.sources :=
             source_titles (database w1) (map Hit.story_id (firstn 3 results));
           Reply.confidence := Some (confidence_of results) |},
      saved user_id question fallback_answer
            (source_titles (database w1) (map Hit.story_id (firstn 3 results)))
            now w1).
Proof.
  intros He Hs Hne Hqa.
  assert (Hf : answer_of question (build_context results) = fallback_answer)
    by (unfold generate_answer; now rewrite Hqa).
  split; [exact Hf|].
  rewrite (process_question_with_results _ _ now _ _ _ He Hs Hne).
  unfold full_reply. now rewrite Hf.
Qed.

(** *** Rebuilding *)

Lemma user_metadata_needs_stories size db user_id :
  truthy (user_metadata size db user_id) = true ->
  truthy (stories_of db user_id) = true.
Proof.
  unfold user_metadata. destruct (stories_of db user_id); simpl; auto.
Qed.

Lemma truthy_map {A B} (f : A -> B) l : truthy (map f l) = truthy l.
Proof. now destruct l. Qed.

(** C8.  When the user has chunks to embed and the embedding model fails on
    them, the rebuild raises [EmbeddingError] and leaves the engine and the
    database exactly as they were: no index is installed, and every later
    search answers as it did before the rebuild. *)
Theorem rebuild_failure_keeps_index user_id w :
  truthy (user_metadata (chunk_size (engine w)) (database w) user_id) = true ->
  encode (map Chunk.chunk_text
              (user_metadata (chunk_size (engine w)) (database w) user_id))
  = None ->
  build user_id w = (Raise EmbeddingError, w)
  /\ forall encode' query k,
       semantic_search encode' normalize_L2
                       (engine (snd (build user_id w))) query k
       = semantic_search encode' normalize_L2 (engine w) query k.
Proof.
  intros Hm He.
  assert (Hb : build user_id w = (Raise EmbeddingError, w)).
  { unfold build_semantic_index.
    rewrite (user_metadata_needs_stories _ _ _ Hm). simpl negb. cbv iota.
    rewrite truthy_map, Hm. simpl negb. cbv iota.
    unfold generate_embeddings. now rewrite He. }
  split; [exact Hb|].
  intros. now rewrite Hb.
Qed.

(** What a rebuild that returns has done: nothing when the user has no
    chunk, the installation of a new index otherwise. *)
Lemma build_returns user_id w w' :
  build user_id w = (Return tt, w') ->
  let metadata :=
    user_metadata (chunk_size (engine w)) (database w) user_id in
  (truthy metadata = false /\ w' = w)
  \/ (truthy metadata = true
      /\ exists embeddings,
           encode (map Chunk.chunk_text metadata) = Some embeddings
           /\ w' = install normalize_L2 w user_id metadata embeddings).
Proof.
  intros H metadata. unfold build_semantic_index in H. fold metadata in H.
  destruct (stories_of (database w) user_id) as [|s rows] eqn:Hs.
  - left. split; [|now inversion H].
    subst metadata. unfold user_metadata. now rewrite Hs.
  - simpl negb in H. cbv iota in H. rewrite truthy_map in H.
    destruct (truthy metadata) eqn:Hm; simpl negb in H; cbv iota in H.
    + right. split; [reflexivity|].
      unfold generate_embeddings in H.
      destruct (encode (map Chunk.chunk_text metadata)) as [embeddings|];
        [|discriminate].
      destruct (length embeddings <? length (map Chunk.chunk_text metadata))%nat;
        [discriminate|].
      exists embeddings. split; [reflexivity|]. now inversion H.
    + left. split; [reflexivity|]. now inversion H.
Qed.

(** A rebuild that raises has changed nothing. *)
Lemma build_raises_unchanged user_id w e w' :
  build user_id w = (Raise e, w') -> w' = w.
Proof.
  unfold build_semantic_index. intro H.
  destruct (negb (truthy (stories_of (database w) user_id)));
    [discriminate|].
  destruct (negb (truthy (map Chunk.chunk_text
              (user_metadata (chunk_size (engine w)) (database w) user_id))));
    [discriminate|].
  destruct (generate_embeddings encode _) as [embeddings|e'];
    [|now inversion H].
  destruct (length embeddings <? _)%nat; [now inversion H | discriminate].
Qed.

(** A rebuild never touches the stories or the chunk size. *)
Lemma build_keeps_stories user_id w r w' :
  build user_id w = (r, w') ->
  stories (database w') = stories (database w)
  /\ chunk_size (engine w') = chunk_size (engine w).
Proof.
  unfold build_semantic_index. intro H.
  destruct (negb (truthy (stories_of (database w) user_id)));
    [inversion H; now subst|].
  destruct (negb (truthy (map Chunk.chunk_text
              (user_metadata (chunk_size (engine w)) (database w) user_id))));
    [inversion H; now subst|].
  destruct (generate_embeddings encode _) as [embeddings|e];
    [|inversion H; now subst].
  destruct (length embeddings <? _)%nat; inversion H; now subst.
Qed.

Lemma user_metadata_same_stories size db db' user_id :
  stories db' = stories db ->
  user_metadata size db' user_id = user_metadata size db user_id.
Proof. unfold user_metadata, stories_of. now intros ->. Qed.

(** After a rebuild that had chunks to index, the index is fresh. *)
Lemma build_makes_fresh user_id w w' :
  build user_id w = (Return tt, w') ->
  truthy (user_metadata (chunk_size (engine w')) (database w') user_id) = true ->
  index_fresh encode normalize_L2 user_id w'.
Proof.
  intros H Hm.
  destruct (build_keeps_stories _ _ _ _ H) as [Hst Hsz].
  rewrite Hsz, (user_metadata_same_stories _ _ _ _ Hst) in Hm.
  unfold index_fresh.
  rewrite Hsz, (user_metadata_same_stories _ _ _ _ Hst).
  destruct (build_returns _ _ _ H) as [[Hf _]|[_ [embeddings [He ->]]]].
  - rewrite Hm in Hf. discriminate.
  - simpl. split; [reflexivity|]. exists embeddings. now split.
Qed.

(** *** Where search results come from *)

Lemma getitem_In {A} (l : list A) i x : getitem l i = Some x -> In x l.
Proof.
  unfold getitem.
  destruct (0 <=? i); [|destruct (0 <=? _); [|discriminate]];
    apply nth_error_In.
Qed.

Lemma collect_results_from_chunks chunks hits results :
  collect_results chunks hits = Return results ->
  forall r, In r results ->
    exists c, In c chunks
              /\ Hit.chunk r = Chunk.chunk_text c
              /\ Hit.story_id r = Chunk.story_id c.
Proof.
  revert results. induction hits as [|[score idx] hits IH]; intros results H r Hr.
  - inversion H. subst. contradiction.
  - simpl in H. destruct (idx <? Z.of_nat (length chunks)).
    + destruct (getitem chunks idx) as [c|] eqn:Hg; [|discriminate].
      destruct (collect_results chunks hits) as [rs|]; [|discriminate].
      inversion H. subst. destruct Hr as [<-|Hr].
      * exists c. simpl. eauto using getitem_In.
      * eapply IH; eauto.
    + eapply IH; eauto.
Qed.

Lemma search_results_from_chunks self query k results :
  search self query k = Return results ->
  forall r, In r results ->
    exists c, In c (engine_chunks self)
              /\ Hit.chunk r = Chunk.chunk_text c
              /\ Hit.story_id r = Chunk.story_id c.
Proof.
  unfold semantic_search. intro H.
  destruct (index self) as [ix|]; [|inversion H; contradiction].
  destruct (negb (truthy (engine_chunks self))); [inversion H; contradiction|].
  destruct (generate_embeddings encode [query]) as [qe|]; [|discriminate].
  destruct (map normalize_L2 qe) as [|q qs]; [discriminate|].
  eapply collect_results_from_chunks; eauto.
Qed.

Lemma enumerate_from_In {A} (l : list A) i n x :
  In (n, x) (enumerate_from i l) -> In x l.
Proof.
  revert i. induction l as [|y l IH]; intros i H; simpl in *; [contradiction|].
  destruct H as [H|H]; [inversion H; now left | right; eauto].
Qed.

(** Every entry of a user's chunk metadata is a chunk of a story that user
    owns. *)
Lemma user_metadata_origin size db user_id c :
  In c (user_metadata size db user_id) ->
  exists s, In s (stories_of db user_id)
            /\ Chunk.story_id c = Story.id s
            /\ In (Chunk.chunk_text c) (chunk_text size (full_text s)).
Proof.
  unfold user_metadata. rewrite in_flat_map. intros [s [Hs Hc]].
  exists s. split; [exact Hs|].
  unfold story_metadata in Hc. apply in_map_iff in Hc.
  destruct Hc as [[idx chunk] [<- Hin]]. simpl.
  split; [reflexivity|]. eapply enumerate_from_In. exact Hin.
Qed.

Lemma stories_of_owned db user_id s :
  In s (stories_of db user_id) <->
  In s (stories db) /\ Story.user_id s = user_id.
Proof.
  unfold stories_of. rewrite filter_In. now rewrite Z.eqb_eq.
Qed.

(** The results of a search over a fresh index all come from the current
    stories of the user the index was built for. *)
Lemma fresh_search_results user_id w query k results :
  index_fresh encode normalize_L2 user_id w ->
  search (engine w) query k = Return results ->
  forall r, In r results ->
    exists s, In s (stories_of (database w) user_id)
              /\ Hit.story_id r = Story.id s
              /\ In (Hit.chunk r)
                    (chunk_text (chunk_size (engine w)) (full_text s)).
Proof.
  intros [Hc _] Hs r Hr.
  destruct (search_results_from_chunks _ _ _ _ Hs _ Hr) as [c [Hin [Ht Hi]]].
  rewrite Hc in Hin.
  destruct (user_metadata_origin _ _ _ _ Hin) as [s [Hs' [Hid Htx]]].
  exists s. rewrite Ht, Hi. auto.
Qed.

(** C1, as the code has it.  The engine keeps one index for the whole
    process, and a search takes no user: after a rebuild for [user_id] that
    had chunks to index, every result of every search, whoever asks, refers
    to a chunk of a story that [user_id] owns. *)
Theorem search_results_belong_to_indexed_user
  user_id w w' query k results :
  build user_id w = (Return tt, w') ->
  truthy (user_metadata (chunk_size (engine w')) (database w') user_id) = true ->
  search (engine w') query k = Return results ->
  forall r, In r results ->
    exists s, In s (stories (database w'))
              /\ Story.user_id s = user_id
              /\ Hit.story_id r = Story.id s
              /\ In (Hit.chunk r)
                    (chunk_text (chunk_size (engine w')) (full_text s)).
Proof.
  intros Hb Hm Hs r Hr.
  pose proof (build_makes_fresh _ _ _ Hb Hm) as Hf.
  destruct (fresh_search_results _ _ _ _ _ Hf Hs r Hr) as [s [Hin [Hid Htx]]].
  apply stories_of_owned in Hin. destruct Hin as [Hin Hu].
  exists s. auto.
Qed.

(** A rebuild for a user without stories returns at once. *)
Lemma rebuild_without_stories user_id w :
  stories_of (database w) user_id = [] ->
  build user_id w = (Return tt, w).
Proof. intro H. unfold build_semantic_index. now rewrite H. Qed.

(** *** Rebuilding after a story is added or deleted *)

Local Abbreviation upload := (upload_story encode normalize_L2).
Local Abbreviation delete := (delete_story encode normalize_L2).

Lemma upload_story_rebuilds user_id title content w w' :
  upload user_id title content w = (Return Story_uploaded, w') ->
  build user_id
        {| engine := engine w;
           database := insert_story (database w) user_id
                                    (strip title) (strip content) |}
  = (Return tt, w').
Proof.
  unfold upload_story.
  destruct (negb (truthy (strip title)) || negb (truthy (strip content)));
    [discriminate|].
  unfold bind, get_db, put_db, ret.
  destruct (build _ _) as [[[]|e] w2]; intro H; inversion H. reflexivity.
Qed.

Lemma delete_story_rebuilds user_id story_id w w' :
  delete user_id story_id w = (Return Story_deleted, w') ->
  build user_id
        {| engine := engine w;
           database := remove_story (database w) story_id |}
  = (Return tt, w').
Proof.
  unfold delete_story, bind, get_db.
  destruct (negb (truthy _)); [discriminate|].
  unfold put_db, ret.
  destruct (build _ _) as [[[]|e] w2]; intro H; inversion H. reflexivity.
Qed.

Lemma enumerate_from_complete {A} (l : list A) i x :
  In x l -> exists n, In (n, x) (enumerate_from i l).
Proof.
  revert i. induction l as [|y l IH]; intros i H; simpl in *; [contradiction|].
  destruct H as [->|H].
  - exists i. now left.
  - destruct (IH (S i) H) as [n Hn]. exists n. now right.
Qed.

Lemma user_metadata_complete size db user_id s chunk :
  In s (stories_of db user_id) ->
  In chunk (chunk_text size (full_text s)) ->
  exists c, In c (user_metadata size db user_id)
            /\ Chunk.story_id c = Story.id s
            /\ Chunk.chunk_text c = chunk.
Proof.
  intros Hs Hc.
  destruct (enumerate_from_complete _ 0%nat _ Hc) as [n Hn].
  exists {| Chunk.story_id := Story.id s; Chunk.chunk_index := n;
            Chunk.chunk_text := chunk |}.
  split; [|now split].
  unfold user_metadata. apply in_flat_map. exists s. split; [exact Hs|].
  unfold story_metadata. apply in_map_iff. exists (n, chunk). now split.
Qed.

(** C2, as the code has it.  [upload_story] and [delete_story] rebuild the
    index for their user before they return.  When that rebuild returns and
    the user has a chunk left to index, the index is the one of the user's
    current stories: a search that follows, with no rebuild for another user
    in between, finds only chunks of those stories, every chunk of the story
    just added is indexed, and no chunk of the story just deleted is. *)
Theorem mutation_rebuilds_index user_id w w' :
  (exists title content,
      upload user_id title content w = (Return Story_uploaded, w'))
  \/ (exists story_id,
        delete user_id story_id w = (Return Story_deleted, w')) ->
  truthy (user_metadata (chunk_size (engine w')) (database w') user_id) = true ->
  index_fresh encode normalize_L2 user_id w'
  /\ (forall query k results,
        search (engine w') query k = Return results ->
        forall r, In r results ->
          exists s, In s (stories_of (database w') user_id)
                    /\ Hit.story_id r = Story.id s)
  /\ (forall title content,
        upload user_id title content w = (Return Story_uploaded, w') ->
        exists s, In s (stories_of (database w') user_id)
                  /\ Story.title s = strip title
                  /\ Story.content s = strip content
                  /\ forall chunk,
                       In chunk (chunk_text (chunk_size (engine w'))
                                            (full_text s)) ->
                       exists c, In c (engine_chunks (engine w'))
                                 /\ Chunk.story_id c = Story.id s
                                 /\ Chunk.chunk_text c = chunk)
  /\ (forall story_id,
        delete user_id story_id w = (Return Story_deleted, w') ->
        forall c, In c (engine_chunks (engine w')) ->
                  Chunk.story_id c <> story_id).
Proof.
  intros Hmut Hm.
  assert (Hf : index_fresh encode normalize_L2 user_id w').
  { destruct Hmut as [[title [content H]]|[story_id H]].
    - apply upload_story_rebuilds in H. eapply build_makes_fresh; eauto.
    - apply delete_story_rebuilds in H. eapply build_makes_fresh; eauto. }
  split; [exact Hf|]. split; [|split].
  - intros query k results Hs r Hr.
    destruct (fresh_search_results _ _ _ _ _ Hf Hs r Hr) as [s [Hin [Hid _]]].
    now exists s.
  - intros title content H. apply upload_story_rebuilds in H.
    destruct (build_keeps_stories _ _ _ _ H) as [Hst _]. simpl in Hst.
    set (s := {| Story.id := stories_seq (database w) + 1;
                 Story.user_id := user_id;
                 Story.title := strip title;
                 Story.content := strip content |}).
    assert (Hs : In s (stories_of (database w') user_id)).
    { apply stories_of_owned. rewrite Hst. split; [|reflexivity].
      apply in_or_app. right. now left. }
    exists s. repeat split; auto.
    intros chunk Hc. destruct Hf as [-> _].
    eapply user_metadata_complete; eauto.
  - intros story_id H c Hc Heq. apply delete_story_rebuilds in H.
    destruct (build_keeps_stories _ _ _ _ H) as [Hst _]. simpl in Hst.
    destruct Hf as [Hch _]. rewrite Hch in Hc.
    destruct (user_metadata_origin _ _ _ _ Hc) as [s [Hs [Hid _]]].
    apply stories_of_owned in Hs. destruct Hs as [Hs _].
    rewrite Hst in Hs. apply filter_In in Hs. destruct Hs as [_ Hs].
    rewrite <- Hid, Heq, Z.eqb_refl in Hs. discriminate.
Qed.

(** *** Confidence *)

Lemma py_max_start x xs : (x <= py_max x xs)%Q.
Proof.
  revert x. induction xs as [|y ys IH]; intro x; simpl.
  - apply Qle_refl.
  - unfold py_max in *. simpl.
    destruct (Qle_bool y x) eqn:E; [apply IH|].
    eapply Qle_trans; [|apply IH].
    destruct (Qlt_le_dec x y) as [Hlt|Hle]; [now apply Qlt_le_weak|].
    apply Qle_bool_iff in Hle. congruence.
Qed.

Lemma py_max_upper x xs y : In y (x :: xs) -> (y <= py_max x xs)%Q.
Proof.
  revert x. induction xs as [|z zs IH]; intros x [->|H].
  - apply Qle_refl.
  - contradiction.
  - apply py_max_start.
  - unfold py_max in *. simpl.
    destruct H as [->|H].
    + destruct (Qle_bool y x) eqn:E.
      * eapply Qle_trans; [apply Qle_bool_iff; exact E|apply py_max_start].
      * apply (IH y). now left.
    + apply IH. now right.
Qed.

Lemma py_max_In x xs : In (py_max x xs) (x :: xs).
Proof.
  revert x. induction xs as [|y ys IH]; intro x.
  - now left.
  - unfold py_max in *. simpl fold_left.
    destruct (Qle_bool y x).
    + destruct (IH x) as [H|H]; [left | right; right]; assumption.
    + right. apply IH.
Qed.

Lemma confidence_of_best results :
  truthy results = true ->
  In (confidence_of results) (map Hit.score results)
  /\ forall r, In r results -> (Hit.score r <= confidence_of results)%Q.
Proof.
  destruct results as [|r0 results]; [discriminate|]. intros _.
  unfold confidence_of. simpl map. split.
  - apply py_max_In.
  - intros r Hr. apply py_max_upper.
    change (In (Hit.score r) (map Hit.score (r0 :: results))).
    now apply in_map.
Qed.

Local Abbreviation api := (chat_api encode normalize_L2 qa_pipeline).

(** C4, as the code has it.  When the search gives results, the reply of
    [process_question] carries a confidence, and it is the best score among
    them, whatever its sign; for a user without stories [chat_api] answers
    with confidence 0. *)
Theorem confidence_is_best_score user_id question now w w1 results w0 :
  ensure user_id w = (Return tt, w1) ->
  search (engine w1) question 5 = Return results ->
  truthy results = true ->
  stories_of (database w0) user_id = [] ->
  (exists reply w2,
      ask user_id question now w = (Return reply, w2)
      /\ Reply.confidence reply = Some (confidence_of results)
      /\ In (confidence_of results) (map Hit.score results)
      /\ forall r, In r results ->
                   (Hit.score r <= confidence_of results)%Q)
  /\ api user_id question now w0 =
     (Return (Json {| Reply.answer := no_stories_answer;
                      Reply.sources := [];
                      Reply.confidence := Some 0%Q |}), w0).
Proof.
  intros He Hs Hne Hnone. split.
  - eexists. eexists. split.
    + apply (process_question_with_results _ _ now _ _ _ He Hs Hne).
    + split; [reflexivity|]. now apply confidence_of_best.
  - unfold chat_api, try_except, bind, get_db. now rewrite Hnone.
Qed.

(** *** How many results a search returns *)

Lemma faiss_search_length ix q k : length (Faiss.search ix q k) = k.
Proof.
  unfold Faiss.search.
  rewrite length_app, length_firstn, repeat_length. lia.
Qed.

Lemma insert_hit_In h x hs :
  In h (Faiss.insert_hit x hs) -> h = x \/ In h hs.
Proof.
  induction hs as [|h' hs IH]; simpl.
  - intros [<-|[]]. now left.
  - destruct (Qle_bool (fst x) (fst h')).
    + intros [<-|H]; [right; now left|].
      destruct (IH H) as [->|H']; [now left | right; now right].
    + intros [<-|H]; [now left | now right].
Qed.

Lemma rank_In h hs : In h (Faiss.rank hs) -> In h hs.
Proof.
  unfold Faiss.rank.
  assert (G : forall acc,
             In h (fold_left (fun acc h => Faiss.insert_hit h acc) hs acc) ->
             In h hs \/ In h acc).
  { induction hs as [|x hs IH]; intros acc H; simpl in *.
    - now right.
    - destruct (IH _ H) as [H'|H']; [left; now right|].
      destruct (insert_hit_In _ _ _ H') as [->|H'']; [left; now left|].
      now right. }
  intro H. destruct (G [] H) as [H'|[]]. exact H'.
Qed.

Lemma In_firstn {A} (x : A) n l : In x (firstn n l) -> In x l.
Proof.
  revert n. induction l as [|y l IH]; intros [|n] H; simpl in *; try contradiction.
  destruct H as [->|H]; [now left | right; eauto].
Qed.

(** Every label of a FAISS result is a row number or -1. *)
Lemma faiss_search_labels ix q k h :
  In h (Faiss.search ix q k) ->
  -1 <= snd h < Z.of_nat (Faiss.ntotal ix).
Proof.
  unfold Faiss.search. intro H. apply in_app_or in H. destruct H as [H|H].
  - destruct h as [score label].
    apply In_firstn, rank_In, in_combine_r in H.
    unfold Faiss.labels in H. simpl. apply in_map_iff in H.
    destruct H as [n [<- Hn]]. apply in_seq in Hn. lia.
  - apply repeat_spec in H. subst h. simpl. lia.
Qed.

Lemma getitem_in_range {A} (l : list A) i :
  -1 <= i < Z.of_nat (length l) -> l <> [] -> exists x, getitem l i = Some x.
Proof.
  intros Hi Hl. unfold getitem.
  assert (Hlen : (0 < length l)%nat)
    by (destruct l; [contradiction | simpl; lia]).
  destruct (Z.leb_spec 0 i).
  - destruct (nth_error l (Z.to_nat i)) eqn:E; [eauto|].
    apply nth_error_None in E. lia.
  - destruct (Z.leb_spec 0 (Z.of_nat (length l) + i)); [|lia].
    destruct (nth_error l (Z.to_nat (Z.of_nat (length l) + i))) eqn:E; [eauto|].
    apply nth_error_None in E. lia.
Qed.

Lemma collect_results_all chunks hits :
  chunks <> [] ->
  (forall h, In h hits -> -1 <= snd h < Z.of_nat (length chunks)) ->
  exists results,
    collect_results chunks hits = Return results
    /\ length results = length hits.
Proof.
  intros Hne. induction hits as [|[score idx] hits IH]; intro Hl.
  - now exists [].
  - destruct IH as [results [Hr Hn]]; [intros; apply Hl; now right|].
    assert (Hi := Hl _ (or_introl eq_refl)). simpl in Hi.
    destruct (getitem_in_range chunks idx Hi Hne) as [c Hc].
    simpl. destruct (Z.ltb_spec idx (Z.of_nat (length chunks))); [|lia].
    rewrite Hc, Hr. eexists. split; [reflexivity|]. simpl. now rewrite Hn.
Qed.

(** Over an index with one row per chunk, a search for [top_k] results
    returns [top_k] of them, however few chunks there are. *)
Lemma semantic_search_returns_top_k self ix query q qs top_k :
  index self = Some ix ->
  Faiss.ntotal ix = length (engine_chunks self) ->
  engine_chunks self <> [] ->
  encode [query] = Some (q :: qs) ->
  exists results,
    search self query top_k = Return results
    /\ length results = top_k.
Proof.
  intros Hix Hn Hne Hq. unfold semantic_search, generate_embeddings.
  rewrite Hix, Hq.
  destruct (engine_chunks self) as [|c cs] eqn:Hc; [contradiction|].
  cbn [truthy negb map].
  destruct (collect_results_all (c :: cs)
              (Faiss.search ix (normalize_L2 q) top_k)) as [results [Hr Hl]].
  - discriminate.
  - intros h Hh. rewrite <- Hn. exact (faiss_search_labels _ _ _ _ Hh).
  - exists results. split; [exact Hr|].
    now rewrite Hl, faiss_search_length.
Qed.

End EngineFacts.

(** ** The engine on concrete inputs *)

Module Scenarios.

Import Stub.

Local Abbreviation build := (build_semantic_index encode normalize_L2).
Local Abbreviation search := (semantic_search encode normalize_L2).
Local Abbreviation ask := (process_question encode normalize_L2 qa_pipeline).

(** C1 fails as stated: user 1 asks first, which builds the index from the
    story of user 1; the search then run for user 2 returns the chunk of
    that story, and the reply to user 2 names its title. *)
Lemma search_crosses_users :
  exists reply1 w1 hits reply2 w2,
    ask 1 what 0%nat (start two_users) = (Return reply1, w1)
    /\ search (engine w1) what 5 = Return hits
    /\ map Hit.story_id hits = [1; 1; 1; 1; 1]
    /\ ask 2 what 1%nat w1 = (Return reply2, w2)
    /\ Reply.sources reply2 = [Story.title cats]
    /\ Story.id cats = 1 /\ Story.user_id cats = 1
    /\ stories_of (database w1) 2 = [dogs].
Proof.
  do 5 eexists. repeat split; vm_compute; reflexivity.
Qed.

Lemma search_results_belong_to_indexed_user_witness :
  build 1 (start two_users) = (Return tt, indexed_two)
  /\ truthy (user_metadata (chunk_size (engine indexed_two))
                           (database indexed_two) 1) = true
  /\ search (engine indexed_two) what 5 = Return cats_hits
  /\ forall r, In r cats_hits ->
       exists s, In s (stories (database indexed_two))
                 /\ Story.user_id s = 1
                 /\ Hit.story_id r = Story.id s
                 /\ In (Hit.chunk r)
                       (chunk_text (chunk_size (engine indexed_two))
                                   (full_text s)).
Proof.
  assert (H1 : build 1 (start two_users) = (Return tt, indexed_two))
    by (vm_compute; reflexivity).
  assert (H2 : truthy (user_metadata (chunk_size (engine indexed_two))
                                     (database indexed_two) 1) = true)
    by (vm_compute; reflexivity).
  assert (H3 : search (engine indexed_two) what 5 = Return cats_hits)
    by (vm_compute; reflexivity).
  refine (conj H1 (conj H2 (conj H3 _))).
  exact (search_results_belong_to_indexed_user encode normalize_L2
           1 (start two_users) indexed_two what 5%nat cats_hits H1 H2 H3).
Defined.

Local Abbreviation upload := (upload_story encode normalize_L2).
Local Abbreviation delete := (delete_story encode normalize_L2).
Local Abbreviation api := (chat_api encode normalize_L2 qa_pipeline).

(** C2 fails as stated: user 1 uploads a story, which rebuilds the index
    for user 1; user 2 opens the dashboard, which rebuilds it for user 2; the
    next question of user 1 is answered from an index that holds the story of
    user 2 only, without the story just added. *)
Lemma next_query_misses_added_story :
  upload 1 (lit "Birds") (lit "Birds sing.") (start two_users)
  = (Return Story_uploaded, after_upload)
  /\ map Story.title (stories_of (database after_upload) 1)
     = [lit "Cats"; lit "Birds"]
  /\ map Chunk.story_id (engine_chunks (engine after_upload)) = [1; 3]
  /\ dashboard encode normalize_L2 2 after_upload = (Return tt, after_dashboard)
  /\ map Chunk.story_id (engine_chunks (engine after_dashboard)) = [2]
  /\ exists reply w,
       ask 1 what 0%nat after_dashboard = (Return reply, w)
       /\ Reply.sources reply = [lit "Dogs"].
Proof.
  repeat split; try (vm_compute; reflexivity).
  do 2 eexists. split; vm_compute; reflexivity.
Qed.

Lemma mutation_rebuilds_index_witness :
  ((exists title content,
       upload 1 title content (start two_users)
       = (Return Story_uploaded, after_upload))
   \/ (exists story_id,
         delete 1 story_id (start two_users)
         = (Return Story_deleted, after_upload)))
  /\ truthy (user_metadata (chunk_size (engine after_upload))
                           (database after_upload) 1) = true
  /\ index_fresh encode normalize_L2 1 after_upload.
Proof.
  assert (H1 : (exists title content,
                   upload 1 title content (start two_users)
                   = (Return Story_uploaded, after_upload))
               \/ (exists story_id,
                     delete 1 story_id (start two_users)
                     = (Return Story_deleted, after_upload))).
  { left. exists (lit "Birds"), (lit "Birds sing."). vm_compute. reflexivity. }
  assert (H2 : truthy (user_metadata (chunk_size (engine after_upload))
                                     (database after_upload) 1) = true)
    by (vm_compute; reflexivity).
  refine (conj H1 (conj H2 _)).
  exact (proj1 (mutation_rebuilds_index encode normalize_L2
                  1 (start two_users) after_upload H1 H2)).
Defined.

(** C3 on a failing input: user 1 deletes the only story; the rebuild that
    [delete_story] runs, and any rebuild after it, returns without touching
    the index, and a search still returns the chunk of the deleted story. *)
Lemma rebuild_without_stories_keeps_old_index :
  delete 1 1 indexed_one = (Return Story_deleted, after_delete)
  /\ stories (database after_delete) = []
  /\ build 1 after_delete = (Return tt, after_delete)
  /\ engine after_delete = engine indexed_one
  /\ search (engine after_delete) what 5 = Return cats_hits
  /\ truthy cats_hits = true.
Proof. repeat split; vm_compute; reflexivity. Qed.

(** C4 fails as stated: the only chunk points away from the question, and
    the confidence of the reply is -1. *)
Lemma confidence_below_zero :
  exists reply w,
    ask 1 (lit "Now what") 0%nat (start one_user) = (Return reply, w)
    /\ Reply.confidence reply = Some (inject_Z (-1))
    /\ (inject_Z (-1) < 0)%Q.
Proof. do 2 eexists. repeat split; vm_compute; reflexivity. Qed.

Lemma confidence_is_best_score_witness :
  ensure_index encode normalize_L2 1 (start one_user) = (Return tt, indexed_one)
  /\ search (engine indexed_one) what 5 = Return cats_hits
  /\ truthy cats_hits = true
  /\ stories_of (database (start nobody)) 1 = []
  /\ (exists reply w,
        ask 1 what 0%nat (start one_user) = (Return reply, w)
        /\ Reply.confidence reply = Some (confidence_of cats_hits)
        /\ In (confidence_of cats_hits) (map Hit.score cats_hits)
        /\ forall r, In r cats_hits ->
                     (Hit.score r <= confidence_of cats_hits)%Q)
  /\ api 1 what 0%nat (start nobody) =
     (Return (Json {| Reply.answer := no_stories_answer;
                      Reply.sources := [];
                      Reply.confidence := Some 0%Q |}), start nobody).
Proof.
  assert (H1 : ensure_index encode normalize_L2 1 (start one_user)
               = (Return tt, indexed_one)) by (vm_compute; reflexivity).
  assert (H2 : search (engine indexed_one) what 5 = Return cats_hits)
    by (vm_compute; reflexivity).
  assert (H3 : truthy cats_hits = true) by reflexivity.
  assert (H4 : stories_of (database (start nobody)) 1 = []) by reflexivity.
  refine (conj H1 (conj H2 (conj H3 (conj H4 _)))).
  exact (confidence_is_best_score encode normalize_L2 qa_pipeline
           1 what 0%nat (start one_user) indexed_one cats_hits (start nobody)
           H1 H2 H3 H4).
Defined.

(** C5 on a failing input: the index holds one chunk and the search is for
    five; five results come back, the last four for the label -1 of the empty
    slots, which [self.story_chunks[-1]] resolves to the last chunk. *)
Lemma search_pads_with_last_chunk :
  length (engine_chunks (engine indexed_one)) = 1%nat
  /\ Faiss.search
       {| Faiss.d := 1; Faiss.xb := [[inject_Z 1]] |} [inject_Z 1] 5
     = (inject_Z 1, 0) :: repeat (Faiss.lowest, -1) 4
  /\ search (engine indexed_one) what 5 = Return cats_hits
  /\ length cats_hits = 5%nat
  /\ map Hit.chunk cats_hits = repeat cats_chunk 5.
Proof. repeat split; vm_compute; reflexivity. Qed.

Lemma rebuild_failure_keeps_index_witness :
  truthy (user_metadata (chunk_size (engine indexed_one))
                        (database indexed_one) 1) = true
  /\ encode_fails
       (map Chunk.chunk_text
            (user_metadata (chunk_size (engine indexed_one))
                           (database indexed_one) 1)) = None
  /\ build_semantic_index encode_fails normalize_L2 1 indexed_one
     = (Raise EmbeddingError, indexed_one)
  /\ search (engine (snd (build_semantic_index encode_fails normalize_L2
                                               1 indexed_one))) what 5
     = Return cats_hits.
Proof.
  assert (H1 : truthy (user_metadata (chunk_size (engine indexed_one))
                                     (database indexed_one) 1) = true)
    by (vm_compute; reflexivity).
  assert (H2 : encode_fails
                 (map Chunk.chunk_text
                      (user_metadata (chunk_size (engine indexed_one))
                                     (database indexed_one) 1)) = None)
    by reflexivity.
  destruct (rebuild_failure_keeps_index encode_fails normalize_L2
              1 indexed_one H1 H2) as [Hb Hs].
  refine (conj H1 (conj H2 (conj Hb _))).
  rewrite (Hs encode what 5%nat). vm_compute. reflexivity.
Defined.

Lemma synthesis_failure_falls_back_witness :
  ensure_index encode normalize_L2 1 (start one_user) = (Return tt, indexed_one)
  /\ search (engine indexed_one) what 5 = Return cats_hits
  /\ truthy cats_hits = true
  /\ qa_fails what (build_context cats_hits) = None
  /\ exists w,
       process_question encode normalize_L2 qa_fails 1 what 0%nat
                        (start one_user)
       = (Return {| Reply.answer := fallback_answer;
                    Reply.sources := [lit "Cats"];
                    Reply.confidence := Some (inject_Z 1) |}, w)
       /\ map Conversation.answer (conversation_history (database w))
          = [fallback_answer].
Proof.
  assert (H1 : ensure_index encode normalize_L2 1 (start one_user)
               = (Return tt, indexed_one)) by (vm_compute; reflexivity).
  assert (H2 : search (engine indexed_one) what 5 = Return cats_hits)
    by (vm_compute; reflexivity).
  assert (H3 : truthy cats_hits = true) by reflexivity.
  assert (H4 : qa_fails what (build_context cats_hits) = None) by reflexivity.
  destruct (synthesis_failure_falls_back encode normalize_L2 qa_fails
              1 what 0%nat (start one_user) indexed_one cats_hits
              H1 H2 H3 H4) as [_ Hask].
  refine (conj H1 (conj H2 (conj H3 (conj H4 _)))).
  eexists. split; [rewrite Hask; vm_compute; reflexivity|].
  vm_compute. reflexivity.
Defined.

Lemma saved_sources_read_back_witness :
  Json.valid_titles odd_titles = true
  /\ newest_for 1 4%nat (database asked_once) = true
  /\ get_chat_history (database asked_once) 1
     = Return [{| Entry.question := what; Entry.answer := lit "an answer";
                  Entry.sources := [lit "Cats"]; Entry.timestamp := 3%nat |}]
  /\ get_chat_history
       (database (snd (save_conversation 1 what fallback_answer odd_titles
                                         4%nat asked_once))) 1
     = Return [{| Entry.question := what; Entry.answer := fallback_answer;
                  Entry.sources := odd_titles; Entry.timestamp := 4%nat |};
               {| Entry.question := what; Entry.answer := lit "an answer";
                  Entry.sources := [lit "Cats"]; Entry.timestamp := 3%nat |}].
Proof.
  assert (H1 : Json.valid_titles odd_titles = true) by (vm_compute; reflexivity).
  assert (H2 : newest_for 1 4%nat (database asked_once) = true)
    by (vm_compute; reflexivity).
  assert (H3 : get_chat_history (database asked_once) 1
               = Return [{| Entry.question := what;
                            Entry.answer := lit "an answer";
                            Entry.sources := [lit "Cats"];
                            Entry.timestamp := 3%nat |}])
    by (vm_compute; reflexivity).
  refine (conj H1 (conj H2 (conj H3 _))).
  exact (saved_sources_read_back 1 what fallback_answer odd_titles 4%nat
           asked_once _ H1 H2 H3).
Defined.

(** Outside the scalar values the round trip can fail: two separate
    surrogates are read back as the one character they encode as a pair.  No
    such string comes out of a [TEXT] column. *)
Example surrogates_merge :
  Json.loads (Json.dumps [[55357; 56832]%N]) = Some [[128512%N]].
Proof. vm_compute. reflexivity. Qed.

End Scenarios.

(** ** More on the chunker *)

Section ChunkShape.

Variable size : nat.

Lemma lstrip_clean s : opens_with_content s = true -> lstrip s = s.
Proof.
  destruct s as [|c s]; [discriminate|]. simpl. unfold is_separator.
  destruct (is_space c); [discriminate | reflexivity].
Qed.

Lemma lstrip_snoc s c :
  is_space c = false -> lstrip (s ++ [c]) = lstrip s ++ [c].
Proof.
  intro Hc. induction s as [|x s IH]; simpl.
  - now rewrite Hc.
  - destruct (is_space x); [exact IH | reflexivity].
Qed.

(** Trimming a text that opens with content and ends with [". "] removes
    the final space and nothing else. *)
Lemma strip_joiner body :
  opens_with_content body = true ->
  strip (body ++ lit ". ") = body ++ [46%N].
Proof.
  intro H. unfold strip, rstrip.
  rewrite (lstrip_clean (body ++ lit ". "))
    by (destruct body; [discriminate | exact H]).
  change (lit ". ") with ([46%N] ++ [32%N]).
  rewrite app_assoc, !rev_app_distr.
  change (rev [32%N] ++ rev [46%N] ++ rev body) with (32%N :: 46%N :: rev body).
  change (lstrip (32%N :: 46%N :: rev body)) with (46%N :: rev body).
  change (rev (46%N :: rev body)) with (rev (rev body) ++ [46%N]).
  now rewrite rev_involutive.
Qed.

Lemma strip_well_shaped chunk : well_shaped chunk -> strip chunk = chunk.
Proof.
  intros [body [-> H]]. unfold strip, rstrip.
  rewrite (lstrip_clean (body ++ [46%N]))
    by (destruct body; [discriminate | exact H]).
  rewrite rev_app_distr.
  change (rev [46%N] ++ rev body) with (46%N :: rev body).
  change (lstrip (46%N :: rev body)) with (46%N :: rev body).
  change (rev (46%N :: rev body)) with (rev (rev body) ++ [46%N]).
  now rewrite rev_involutive.
Qed.

Lemma Forall_lstrip (P : char -> Prop) s : Forall P s -> Forall P (lstrip s).
Proof.
  induction 1 as [|c s Hc Hs IH]; simpl; [constructor|].
  destruct (is_space c); [exact IH | now constructor].
Qed.

Lemma Forall_strip (P : char -> Prop) s : Forall P s -> Forall P (strip s).
Proof.
  intro H. unfold strip, rstrip.
  apply Forall_rev, Forall_lstrip, Forall_rev, Forall_lstrip, H.
Qed.

Lemma lstrip_opens s :
  lstrip s = [] \/ exists c t, lstrip s = c :: t /\ is_space c = false.
Proof.
  induction s as [|c s IH]; simpl; [now left|].
  destruct (is_space c) eqn:E; [exact IH|]. right. now exists c, s.
Qed.

(** A trimmed text is empty or opens with a character that is no white
    space. *)
Lemma strip_opens s :
  strip s = [] \/ exists c t, strip s = c :: t /\ is_space c = false.
Proof.
  unfold strip, rstrip.
  destruct (lstrip_opens s) as [->|[c [t [-> Hc]]]]; [now left|].
  right. simpl rev. rewrite lstrip_snoc by exact Hc.
  rewrite rev_app_distr. simpl. now exists c, (rev (lstrip (rev t))).
Qed.

(** The pieces of [re.split] hold no sentence-terminal character. *)
Lemma re_split_pieces b text piece :
  In piece (re_split_from b text) ->
  Forall (fun c => is_terminal c = false) piece.
Proof.
  revert b piece. induction text as [|c rest IH]; intros b piece H; simpl in H.
  - destruct H as [<-|[]]. constructor.
  - destruct (is_terminal c) eqn:T.
    + destruct b; [eauto|]. destruct H as [<-|H]; [constructor | eauto].
    + destruct (re_split_from false rest) as [|p ps] eqn:E.
      * destruct H as [<-|[]]. now repeat constructor.
      * destruct H as [<-|H].
        -- constructor; [exact T|]. apply (IH false). rewrite E. now left.
        -- apply (IH false). rewrite E. now right.
Qed.

(** A sentence that survives trimming opens with content. *)
Lemma sentence_opens piece :
  Forall (fun c => is_terminal c = false) piece ->
  truthy (strip piece) = true ->
  opens_with_content (strip piece) = true.
Proof.
  intros Hp Hne. apply Forall_strip in Hp.
  destruct (strip_opens piece) as [E|[c [t [E Hc]]]]; rewrite E in *;
    [discriminate|].
  inversion Hp as [|? ? Ht _]. subst. simpl. unfold is_separator.
  now rewrite Hc, Ht.
Qed.

Lemma close_ok pieces chunks current :
  Forall (closed_ok size pieces) chunks ->
  open_ok size pieces current ->
  Forall (closed_ok size pieces)
         (if truthy current then chunks ++ [strip current] else chunks).
Proof.
  intros Hc [->|[body [-> [Ho Hw]]]]; [exact Hc|].
  replace (truthy (body ++ lit ". ")) with true
    by (destruct body; reflexivity).
  apply Forall_app. split; [exact Hc|]. constructor; [|constructor].
  exists body. now rewrite strip_joiner.
Qed.

Lemma opens_with_content_app s t :
  opens_with_content s = true -> opens_with_content (s ++ t) = true.
Proof. destruct s; [discriminate | trivial]. Qed.

Lemma chunk_step_ok pieces st sentence :
  In sentence pieces ->
  Forall (fun c => is_terminal c = false) sentence ->
  state_ok size pieces st ->
  state_ok size pieces (chunk_step size st sentence).
Proof.
  intros Hin Hp [Hc Ho]. destruct st as [chunks current].
  simpl fst in Hc. simpl snd in Ho. unfold chunk_step.
  destruct (truthy (strip sentence)) eqn:Hne; simpl negb; cbv iota;
    [|now split].
  pose proof (sentence_opens _ Hp Hne) as Hs.
  destruct (length current + length (strip sentence) <? size)%nat eqn:Hlt.
  - split; [exact Hc|]. simpl snd. right.
    apply Nat.ltb_lt in Hlt.
    exists (current ++ strip sentence). split; [now rewrite app_assoc|].
    split.
    + destruct Ho as [->|[body [-> [Hb _]]]]; [exact Hs|].
      now apply opens_with_content_app, opens_with_content_app.
    + left. rewrite length_app. lia.
  - split; simpl fst; simpl snd.
    + now apply close_ok.
    + right. exists (strip sentence). split; [reflexivity|].
      split; [exact Hs|]. right. now exists sentence.
Qed.

Lemma chunk_loop_ok pieces sentences st :
  incl sentences pieces ->
  Forall (Forall (fun c => is_terminal c = false)) sentences ->
  state_ok size pieces st ->
  state_ok size pieces (fold_left (chunk_step size) sentences st).
Proof.
  revert st. induction sentences as [|s sentences IH]; intros st Hi Hp Hst;
    simpl; [exact Hst|].
  inversion Hp. subst. apply IH.
  - intros x Hx. apply Hi. now right.
  - assumption.
  - apply chunk_step_ok; [apply Hi; now left | assumption | assumption].
Qed.

Lemma chunk_text_ok text :
  Forall (closed_ok size (re_split text)) (chunk_text size text).
Proof.
  unfold chunk_text.
  assert (H : state_ok size (re_split text)
                (fold_left (chunk_step size) (re_split text) ([], []))).
  { apply chunk_loop_ok.
    - apply incl_refl.
    - apply Forall_forall. intros piece Hp. exact (re_split_pieces _ _ _ Hp).
    - split; [constructor | now left]. }
  destruct (fold_left _ _ _) as [chunks current]. destruct H as [Hc Ho].
  unfold chunk_flush. now apply close_ok.
Qed.

(** X1.  Every chunk is a non-empty text that ends with a full stop and has no
    white space at either end. *)
Theorem chunks_are_trimmed_sentences text :
  Forall (fun chunk => well_shaped chunk /\ chunk <> [] /\ strip chunk = chunk)
         (chunk_text size text).
Proof.
  eapply Forall_impl; [|apply chunk_text_ok].
  intros chunk [body [-> [Ho _]]].
  assert (Hw : well_shaped (body ++ [46%N])) by now exists body.
  split; [exact Hw|]. split; [now destruct body | now apply strip_well_shaped].
Qed.

(** X2.  A chunk is longer than the chunk size only when it is a single
    sentence of the text, trimmed, with its full stop. *)
Theorem chunk_exceeds_size_only_for_one_sentence text :
  Forall (fun chunk =>
            (length chunk <= size)%nat
            \/ exists piece,
                 In piece (re_split text) /\ chunk = strip piece ++ [46%N])
         (chunk_text size text).
Proof.
  eapply Forall_impl; [|apply chunk_text_ok].
  intros chunk [body [-> [_ [Hlen|[piece [Hp ->]]]]]].
  - left. rewrite length_app. exact Hlen.
  - right. now exists piece.
Qed.

(** X3.  A text gives no chunk exactly when it holds nothing but white space
    and sentence-terminal punctuation. *)
Theorem no_chunks_iff_no_content text :
  chunk_text size text = [] <-> content_of text = [].
Proof.
  assert (E : content_of (concat (chunk_text size text)) = content_of text).
  { unfold chunk_text.
    rewrite chunk_flush_content, chunk_loop_content.
    unfold re_split. now rewrite content_of_re_split_from. }
  split; intro H.
  - rewrite <- E, H. reflexivity.
  - destruct (chunk_text size text) as [|chunk chunks] eqn:Hc; [reflexivity|].
    pose proof (chunk_text_ok text) as Hall. rewrite Hc in Hall.
    inversion Hall as [|? ? [body [-> [Ho _]]] _]. subst.
    destruct body as [|c body]; [discriminate|].
    simpl in E, Ho. rewrite Ho in E. rewrite H in E. discriminate.
Qed.

(** X4.  The chunks of a story are numbered 0, 1, 2, ... in the order of
    [chunk_text], all under the id of the story. *)
Theorem story_metadata_dense (s : Story.t) :
  map Chunk.chunk_index (story_metadata size s)
  = seq 0 (length (chunk_text size (full_text s)))
  /\ map Chunk.chunk_text (story_metadata size s)
     = chunk_text size (full_text s)
  /\ Forall (fun c => Chunk.story_id c = Story.id s) (story_metadata size s).
Proof.
  unfold story_metadata, enumerate.
  generalize (chunk_text size (full_text s)) as chunks.
  generalize 0%nat as i.
  intros i chunks. revert i.
  induction chunks as [|chunk chunks IH]; intro i; simpl.
  - repeat split. constructor.
  - destruct (IH (S i)) as [H1 [H2 H3]].
    rewrite H1, H2. repeat split. now constructor.
Qed.

End ChunkShape.

(** ** More on rebuilding *)

Section RebuildFacts.

Variable encode : list str -> option (list Faiss.vec).
Variable normalize_L2 : Faiss.vec -> Faiss.vec.

Local Abbreviation build := (build_semantic_index encode normalize_L2).

(** The row of [story_chunks] belongs to a story of the user. *)
Local Abbreviation belongs db user_id :=
  (fun r : ChunkRow.t =>
     existsb (fun s => Story.id s =? ChunkRow.story_id r)
             (stories_of db user_id)).

(** The three outcomes of a rebuild. *)
Lemma build_cases user_id w :
  let metadata :=
    user_metadata (chunk_size (engine w)) (database w) user_id in
  (truthy metadata = false /\ build user_id w = (Return tt, w))
  \/ (truthy metadata = true
      /\ exists e, build user_id w = (Raise e, w))
  \/ (truthy metadata = true
      /\ exists embeddings,
           encode (map Chunk.chunk_text metadata) = Some embeddings
           /\ (length metadata <= length embeddings)%nat
           /\ build user_id w
              = (Return tt, install normalize_L2 w user_id metadata embeddings)).
Proof.
  intro metadata. unfold build_semantic_index. fold metadata.
  destruct (stories_of (database w) user_id) as [|s rows] eqn:Hs.
  - left. split; [|reflexivity].
    subst metadata. unfold user_metadata. now rewrite Hs.
  - simpl negb. cbv iota. rewrite truthy_map.
    destruct (truthy metadata) eqn:Hm; simpl negb; cbv iota;
      [|left; now split].
    right. unfold generate_embeddings.
    destruct (encode (map Chunk.chunk_text metadata)) as [embeddings|];
      [|left; split; [reflexivity | now exists EmbeddingError]].
    rewrite length_map.
    destruct (Nat.ltb_spec (length embeddings) (length metadata)).
    + left. split; [reflexivity | now exists IndexError].
    + right. split; [reflexivity|]. exists embeddings. auto.
Qed.

Lemma metadata_rows_belong size db user_id embeddings :
  filter (fun r => negb (belongs db user_id r))
         (chunk_rows (user_metadata size db user_id) embeddings) = [].
Proof.
  unfold chunk_rows.
  assert (H : forall m, In m (user_metadata size db user_id) ->
                existsb (fun s => Story.id s =? Chunk.story_id m)
                        (stories_of db user_id) = true).
  { intros m Hm.
    destruct (user_metadata_origin _ _ _ _ Hm) as [s [Hs [Hid _]]].
    apply existsb_exists. exists s. split; [exact Hs|].
    rewrite Hid. apply Z.eqb_refl. }
  revert embeddings H.
  generalize (user_metadata size db user_id) as metadata.
  induction metadata as [|m metadata IH]; intros [|e embeddings] H;
    try reflexivity.
  simpl. rewrite (H m (or_introl eq_refl)). simpl. apply IH.
  intros m' Hm'. apply H. now right.
Qed.

Lemma filter_idem {A} (f : A -> bool) l : filter f (filter f l) = filter f l.
Proof.
  induction l as [|x l IH]; simpl; [reflexivity|].
  destruct (f x) eqn:E; simpl; [rewrite E|]; now rewrite IH.
Qed.

(** X5.  Rebuilding twice in a row is rebuilding once: the second rebuild gives
    the outcome of the first and leaves the engine and the database as the
    first left them. *)
Theorem rebuild_is_idempotent user_id w :
  build_semantic_index encode normalize_L2 user_id
    (snd (build_semantic_index encode normalize_L2 user_id w))
  = build_semantic_index encode normalize_L2 user_id w.
Proof.
  destruct (build_cases user_id w)
    as [[_ Hb]|[[_ [e Hb]]|[Hm [embeddings [He [Hl Hb]]]]]];
    rewrite Hb; simpl snd; try exact Hb.
  set (metadata := user_metadata (chunk_size (engine w)) (database w) user_id)
    in *.
  set (w' := install normalize_L2 w user_id metadata embeddings).
  assert (Hsame : user_metadata (chunk_size (engine w')) (database w') user_id
                  = metadata) by reflexivity.
  pose proof (build_cases user_id w') as Hc. cbv zeta in Hc.
  rewrite Hsame in Hc.
  destruct Hc as [[Hm' _]|[[_ [e Hb']]|[_ [embeddings' [He' [_ Hb']]]]]].
  - congruence.
  - exfalso. unfold build_semantic_index in Hb'. rewrite Hsame in Hb'.
    change (stories_of (database w') user_id)
      with (stories_of (database w) user_id) in Hb'.
    pose proof (user_metadata_needs_stories _ _ _ Hm) as Hst.
    rewrite Hst, truthy_map, Hm in Hb'. simpl negb in Hb'. cbv iota in Hb'.
    unfold generate_embeddings in Hb'. rewrite He, length_map in Hb'.
    apply Nat.ltb_ge in Hl. rewrite Hl in Hb'. discriminate.
  - rewrite Hb'. f_equal.
    assert (embeddings' = embeddings) by congruence. subst embeddings'.
    subst w'. unfold install. simpl. f_equal. f_equal.
    unfold chunks_cleared. simpl.
    change (stories_of _ user_id) with (stories_of (database w) user_id).
    rewrite filter_app, filter_idem.
    subst metadata. rewrite metadata_rows_belong. now rewrite app_nil_r.
Qed.

Lemma filter_all {A} (f : A -> bool) l :
  Forall (fun x => f x = true) l ->
  filter f l = l /\ filter (fun x => negb (f x)) l = [].
Proof.
  induction 1 as [|x l Hx Hl [IH1 IH2]]; simpl; [now split|].
  rewrite Hx. simpl. now rewrite IH1, IH2.
Qed.

Lemma filter_none {A} (f : A -> bool) l :
  filter f (filter (fun x => negb (f x)) l) = [].
Proof.
  induction l as [|x l IH]; simpl; [reflexivity|].
  destruct (f x) eqn:E; simpl; [|rewrite E]; exact IH.
Qed.

Lemma metadata_rows_all_belong size db user_id embeddings :
  Forall (fun r => belongs db user_id r = true)
         (chunk_rows (user_metadata size db user_id) embeddings).
Proof.
  apply Forall_forall. intros r Hr. unfold chunk_rows in Hr.
  apply in_map_iff in Hr. destruct Hr as [[m e] [<- Hin]].
  apply in_combine_l in Hin.
  destruct (user_metadata_origin _ _ _ _ Hin) as [s [Hs [Hid _]]].
  apply existsb_exists. exists s. split; [exact Hs|].
  simpl. rewrite Hid. apply Z.eqb_refl.
Qed.

Lemma chunk_rows_keys metadata embeddings :
  (length metadata <= length embeddings)%nat ->
  map (fun r => (ChunkRow.story_id r, ChunkRow.chunk_index r,
                 ChunkRow.chunk_text r))
      (chunk_rows metadata embeddings)
  = map (fun c => (Chunk.story_id c, Chunk.chunk_index c, Chunk.chunk_text c))
        metadata.
Proof.
  unfold chunk_rows. revert embeddings.
  induction metadata as [|m metadata IH]; intros [|e embeddings] H;
    simpl in *; try reflexivity; try lia.
  f_equal. apply IH. lia.
Qed.

(** X6.  After a rebuild that indexed chunks, the committed rows of
    [story_chunks] for the stories of the user are the chunks the engine
    holds, one row per chunk in the same order; the rows of every other story
    are as before. *)
Theorem rebuild_rows_match_index user_id w w' :
  build user_id w = (Return tt, w') ->
  truthy (user_metadata (chunk_size (engine w)) (database w) user_id) = true ->
  map (fun r => (ChunkRow.story_id r, ChunkRow.chunk_index r,
                 ChunkRow.chunk_text r))
      (filter (belongs (database w) user_id) (story_chunks (database w')))
  = map (fun c => (Chunk.story_id c, Chunk.chunk_index c, Chunk.chunk_text c))
        (engine_chunks (engine w'))
  /\ filter (fun r => negb (belongs (database w) user_id r))
            (story_chunks (database w'))
     = filter (fun r => negb (belongs (database w) user_id r))
              (story_chunks (database w)).
Proof.
  intros Hb Hm.
  destruct (build_cases user_id w)
    as [[Hf _]|[[_ [e Hr]]|[_ [embeddings [He [Hl Hi]]]]]]; try congruence.
  rewrite Hi in Hb. inversion Hb. subst w'. clear Hb.
  unfold install. simpl. rewrite !filter_app.
  destruct (filter_all _ _ (metadata_rows_all_belong
                              (chunk_size (engine w)) (database w)
                              user_id embeddings)) as [Hall Hnone].
  rewrite Hall, Hnone, app_nil_r. unfold chunks_cleared.
  rewrite filter_none, filter_idem. simpl. split; [|reflexivity].
  now apply chunk_rows_keys.
Qed.

(** What no rebuild changes, whatever its outcome. *)
Lemma build_frame user_id w r w' :
  build user_id w = (r, w') ->
  stories (database w') = stories (database w)
  /\ stories_seq (database w') = stories_seq (database w)
  /\ conversation_history (database w') = conversation_history (database w)
  /\ chunk_size (engine w') = chunk_size (engine w).
Proof.
  intro H.
  destruct (build_cases user_id w)
    as [[_ Hb]|[[_ [e Hb]]|[_ [embeddings [_ [_ Hb]]]]]];
    rewrite Hb in H; inversion H; subst; repeat split.
Qed.

End RebuildFacts.

(** ** More on answering a question *)

Section AskFacts.

Variable encode : list str -> option (list Faiss.vec).
Variable normalize_L2 : Faiss.vec -> Faiss.vec.
Variable qa_pipeline : str -> str -> option str.

Local Abbreviation build := (build_semantic_index encode normalize_L2).
Local Abbreviation ensure := (ensure_index encode normalize_L2).
Local Abbreviation search := (semantic_search encode normalize_L2).
Local Abbreviation ask := (process_question encode normalize_L2 qa_pipeline).

Lemma ensure_frame user_id w r w' :
  ensure user_id w = (r, w') ->
  stories (database w') = stories (database w)
  /\ stories_seq (database w') = stories_seq (database w)
  /\ conversation_history (database w') = conversation_history (database w)
  /\ chunk_size (engine w') = chunk_size (engine w).
Proof.
  unfold ensure_index. destruct (index (engine w)).
  - intro H. inversion H. subst. repeat split.
  - apply build_frame.
Qed.

Lemma collect_results_length chunks hits results :
  collect_results chunks hits = Return results ->
  (length results <= length hits)%nat.
Proof.
  revert results. induction hits as [|[score idx] hits IH]; intros results H.
  - inversion H. apply Nat.le_refl.
  - simpl in H. destruct (idx <? Z.of_nat (length chunks)).
    + destruct (getitem chunks idx); [|discriminate].
      destruct (collect_results chunks hits) as [rs|]; [|discriminate].
      inversion H. simpl. apply le_n_S. now apply IH.
    + simpl. apply Nat.le_trans with (length hits); [now apply IH | lia].
Qed.

(** X7.  A search never returns more than [top_k] results. *)
Theorem search_returns_at_most_top_k self query top_k results :
  search self query top_k = Return results ->
  (length results <= top_k)%nat.
Proof.
  unfold semantic_search. intro H.
  destruct (index self) as [ix|]; [|inversion H; simpl; lia].
  destruct (negb (truthy (engine_chunks self))); [inversion H; simpl; lia|].
  destruct (generate_embeddings encode [query]) as [qe|]; [|discriminate].
  destruct (map normalize_L2 qe) as [|q qs]; [discriminate|].
  apply collect_results_length in H.
  now rewrite faiss_search_length in H.
Qed.

(** X8.  [process_question] always returns a reply and never touches the
    stories.  A reply without confidence has no sources and leaves the
    history as it was; a reply with confidence is recorded as the one new row
    of the history, under the user and the question, with the answer and the
    sources of the reply. *)
Theorem ask_records_what_it_returns user_id question now w :
  exists reply w',
    ask user_id question now w = (Return reply, w')
    /\ stories (database w') = stories (database w)
    /\ ((Reply.confidence reply = None
         /\ Reply.sources reply = []
         /\ conversation_history (database w')
            = conversation_history (database w))
        \/ (Reply.confidence reply <> None
            /\ conversation_history (database w')
               = conversation_history (database w)
                 ++ [conversation_of user_id question reply now])).
Proof.
  unfold process_question, try_except, process_question_body, bind.
  destruct (ensure user_id w) as [[[]|e] w1] eqn:He;
    destruct (ensure_frame _ _ _ _ He) as [Hst [_ [Hh _]]].
  - unfold get_engine, lift.
    destruct (search (engine w1) question 5) as [[|r results]|e] eqn:Hs.
    + do 2 eexists. split; [reflexivity|]. split; [exact Hst|]. left. auto.
    + do 2 eexists. split; [reflexivity|]. simpl. split; [exact Hst|].
      right. split; [discriminate|]. now rewrite Hh.
    + do 2 eexists. split; [reflexivity|]. split; [exact Hst|]. left. auto.
  - do 2 eexists. split; [reflexivity|]. split; [exact Hst|]. left. auto.
Qed.

(** X9.  With an index in place and the embedding model down, the reply is the
    error message, without sources or confidence, and nothing changes. *)
Theorem ask_with_embedding_down user_id question now w ix :
  index (engine w) = Some ix ->
  truthy (engine_chunks (engine w)) = true ->
  encode [question] = None ->
  ask user_id question now w
  = (Return {| Reply.answer := error_answer; Reply.sources := [];
               Reply.confidence := None |}, w).
Proof.
  intros Hix Hc He.
  unfold process_question, try_except, process_question_body, bind,
    ensure_index, get_engine, lift, semantic_search, generate_embeddings.
  rewrite Hix. cbn [engine]. rewrite Hix, Hc. cbn [negb]. rewrite He.
  reflexivity.
Qed.

(** X10.  A user without stories who asks before any index exists gets the
    message that nothing relevant was found, whatever the state of the
    models: neither of them is called, and nothing changes. *)
Theorem ask_without_stories user_id question now w :
  index (engine w) = None ->
  stories_of (database w) user_id = [] ->
  ask user_id question now w
  = (Return {| Reply.answer := no_information_answer; Reply.sources := [];
               Reply.confidence := None |}, w).
Proof.
  intros Hix Hst.
  apply process_question_without_results.
  - unfold ensure_index. rewrite Hix. now apply rebuild_without_stories.
  - unfold semantic_search. now rewrite Hix.
Qed.

Lemma NoDup_ids_filter (f : Story.t -> bool) l :
  NoDup (map Story.id l) -> NoDup (map Story.id (filter f l)).
Proof.
  induction l as [|s l IH]; simpl; intro H; [constructor|].
  inversion H as [|? ? Hn Hd]. subst.
  destruct (f s); [|now apply IH]. simpl. constructor; [|now apply IH].
  intro Hin. apply Hn. apply in_map_iff in Hin.
  destruct Hin as [s' [Hid Hs']]. apply filter_In in Hs'.
  apply in_map_iff. exists s'. tauto.
Qed.

Lemma source_titles_bound db story_ids :
  NoDup (map Story.id (stories db)) ->
  (length (source_titles db story_ids) <= length story_ids)%nat
  /\ Forall (fun t => exists s, In s (stories db)
                                /\ In (Story.id s) story_ids
                                /\ Story.title s = t)
            (source_titles db story_ids).
Proof.
  intro Hn. unfold source_titles. split.
  - rewrite length_map.
    rewrite <- (length_map Story.id).
    apply NoDup_incl_length; [now apply NoDup_ids_filter|].
    intros i Hi. apply in_map_iff in Hi. destruct Hi as [s [<- Hs]].
    apply filter_In in Hs. destruct Hs as [_ Hs].
    apply existsb_exists in Hs. destruct Hs as [j [Hj Hij]].
    apply Z.eqb_eq in Hij. now subst.
  - apply Forall_forall. intros t Ht. apply in_map_iff in Ht.
    destruct Ht as [s [<- Hs]]. apply filter_In in Hs.
    destruct Hs as [Hin Hs]. exists s. split; [exact Hin|].
    split; [|reflexivity].
    apply existsb_exists in Hs. destruct Hs as [j [Hj Hij]].
    apply Z.eqb_eq in Hij. now subst.
Qed.

(** X11.  When story ids are distinct, a reply names at most three sources, each
    the title of a story in the table. *)
Theorem ask_names_at_most_three_stories user_id question now w :
  NoDup (map Story.id (stories (database w))) ->
  exists reply w',
    ask user_id question now w = (Return reply, w')
    /\ (length (Reply.sources reply) <= 3)%nat
    /\ Forall (fun t => exists s, In s (stories (database w))
                                  /\ Story.title s = t)
              (Reply.sources reply).
Proof.
  intro Hn.
  unfold process_question, try_except, process_question_body, bind.
  destruct (ensure user_id w) as [[[]|e] w1] eqn:He;
    destruct (ensure_frame _ _ _ _ He) as [Hst _].
  - unfold get_engine, lift.
    destruct (search (engine w1) question 5) as [[|r results]|e] eqn:Hs;
      try (do 2 eexists; split; [reflexivity|]; simpl; split;
           [lia | constructor]).
    do 2 eexists. split; [reflexivity|]. simpl Reply.sources.
    rewrite <- Hst in Hn.
    destruct (source_titles_bound (database w1)
                (map Hit.story_id (firstn 3 (r :: results))) Hn) as [Hl Hf].
    split.
    + eapply Nat.le_trans; [exact Hl|].
      rewrite length_map. apply firstn_le_length.
    + eapply Forall_impl; [|exact Hf].
      intros t [s [Hin [_ Ht]]]. exists s. rewrite <- Hst. auto.
  - do 2 eexists. split; [reflexivity|]. simpl. split; [lia | constructor].
Qed.

End AskFacts.

(** ** More on the conversation history *)

Section HistoryReaders.

Local Abbreviation of_user user_id :=
  (fun r : Conversation.t => Conversation.user_id r =? user_id).

Local Abbreviation saved user_id question answer sources now w :=
  (database (snd (save_conversation user_id question answer sources now w))).

(** X12.  A conversation saved for one user leaves what every other user reads
    of the history unchanged. *)
Theorem other_users_history_untouched
  user_id other question answer sources now w :
  other <> user_id ->
  get_chat_history (saved user_id question answer sources now w) other
  = get_chat_history (database w) other
  /\ forall limit,
       get_conversation_context (saved user_id question answer sources now w)
                                other limit
       = get_conversation_context (database w) other limit.
Proof.
  intro Hne.
  assert (E : filter (of_user other)
                     (conversation_history
                        (saved user_id question answer sources now w))
              = filter (of_user other) (conversation_history (database w))).
  { cbn [save_conversation snd database conversation_history].
    rewrite filter_app. cbn [filter Conversation.user_id].
    destruct (Z.eqb_spec user_id other) as [->|_]; [contradiction|].
    apply app_nil_r. }
  unfold get_chat_history, recent_rows, get_conversation_context.
  now rewrite E.
Qed.

Lemma sql_limit_length {A} (n : Z) (rows : list A) :
  0 <= n -> (length (sql_limit n rows) <= Z.to_nat n)%nat.
Proof.
  intro H. unfold sql_limit. destruct (Z.ltb_spec n 0); [lia|].
  apply firstn_le_length.
Qed.

Lemma sql_limit_In {A} (n : Z) (rows : list A) x :
  In x (sql_limit n rows) -> In x rows.
Proof.
  unfold sql_limit. destruct (n <? 0); [trivial | apply In_firstn].
Qed.

(** X13.  [get_conversation_context] returns at most [limit] turns, each the
    question and the answer of a conversation of that user. *)
Theorem conversation_context_is_bounded db user_id limit :
  0 <= limit ->
  (length (get_conversation_context db user_id limit) <= Z.to_nat limit)%nat
  /\ Forall (fun t => exists r, In r (conversation_history db)
                                /\ Conversation.user_id r = user_id
                                /\ Conversation.question r = Turn.question t
                                /\ Conversation.answer r = Turn.answer t)
            (get_conversation_context db user_id limit).
Proof.
  intro H. unfold get_conversation_context. split.
  - rewrite length_map. now apply sql_limit_length.
  - apply Forall_forall. intros t Ht. apply in_map_iff in Ht.
    destruct Ht as [r [<- Hr]].
    apply sql_limit_In, order_by_created_at_desc_In, filter_In in Hr.
    destruct Hr as [Hin Hu]. apply Z.eqb_eq in Hu. exists r. auto.
Qed.

Lemma history_entries_rows rows entries :
  history_entries rows = Return entries ->
  map (fun e => (Entry.question e, Entry.answer e, Entry.timestamp e)) entries
  = map (fun r => (Conversation.question r, Conversation.answer r,
                   Conversation.created_at r)) rows.
Proof.
  revert entries. induction rows as [|h rows IH]; intros entries H.
  - now inversion H.
  - simpl in H.
    destruct (read_sources (Conversation.sources h)); [|discriminate].
    destruct (history_entries rows) as [es|]; [|discriminate].
    inversion H. simpl. now rewrite (IH es eq_refl).
Qed.

(** X14.  The two readers of the history agree: what [get_chat_history] returns
    is, question by question and answer by answer, what
    [get_conversation_context] returns for a limit of ten; so it holds at
    most ten entries. *)
Theorem history_readers_agree db user_id entries :
  get_chat_history db user_id = Return entries ->
  map (fun e => (Entry.question e, Entry.answer e)) entries
  = map (fun t => (Turn.question t, Turn.answer t))
        (get_conversation_context db user_id 10)
  /\ (length entries <= 10)%nat.
Proof.
  unfold get_chat_history, recent_rows, get_conversation_context. intro H.
  apply history_entries_rows in H.
  change (sql_limit 10 ?l) with (firstn 10 l).
  split.
  - rewrite map_map. cbn [Turn.question Turn.answer].
    apply (f_equal (map (fun x : str * str * nat => fst x))) in H.
    rewrite !map_map in H. exact H.
  - apply (f_equal (@length _)) in H. rewrite !length_map in H.
    rewrite H. apply firstn_le_length.
Qed.

(** Rows by non-increasing time. *)
Local Abbreviation newer_first :=
  (fun r1 r2 : Conversation.t =>
     (Conversation.created_at r2 <= Conversation.created_at r1)%nat).

Lemma insert_recent_sorted x rows :
  StronglySorted newer_first rows ->
  StronglySorted newer_first (insert_recent x rows).
Proof.
  induction 1 as [|r rows Hs IH Hr]; simpl.
  - repeat constructor.
  - destruct (Nat.leb_spec (Conversation.created_at x)
                           (Conversation.created_at r)).
    + constructor; [exact IH|].
      apply Forall_forall. intros y Hy.
      apply insert_recent_In in Hy. destruct Hy as [->|Hy]; [assumption|].
      rewrite Forall_forall in Hr. now apply Hr.
    + constructor; [now constructor|].
      constructor; [lia|].
      eapply Forall_impl; [|exact Hr]. simpl. intros; lia.
Qed.

Lemma order_by_created_at_desc_sorted rows :
  StronglySorted newer_first (order_by_created_at_desc rows).
Proof.
  unfold order_by_created_at_desc.
  assert (G : forall acc, StronglySorted newer_first acc ->
              StronglySorted newer_first
                (fold_left (fun acc r => insert_recent r acc) rows acc)).
  { induction rows as [|r rows IH]; intros acc Ha; simpl; [exact Ha|].
    apply IH. now apply insert_recent_sorted. }
  apply G. constructor.
Qed.

Lemma firstn_sorted {A} (R : A -> A -> Prop) n l :
  StronglySorted R l -> StronglySorted R (firstn n l).
Proof.
  intro H. revert n. induction H as [|x l Hs IH Hx]; intro n.
  - rewrite firstn_nil. constructor.
  - destruct n; simpl; constructor; [apply IH|].
    apply Forall_forall. intros y Hy. apply In_firstn in Hy.
    rewrite Forall_forall in Hx. now apply Hx.
Qed.

Lemma sorted_times rows :
  StronglySorted newer_first rows ->
  StronglySorted ge (map Conversation.created_at rows).
Proof.
  induction 1 as [|r rows Hs IH Hr]; simpl; constructor; [exact IH|].
  apply Forall_forall. intros t Ht. apply in_map_iff in Ht.
  destruct Ht as [r' [<- Hr']]. rewrite Forall_forall in Hr.
  exact (Hr r' Hr').
Qed.

(** X15.  The history comes newest first: no entry is newer than one before
    it. *)
Theorem history_is_newest_first db user_id entries :
  get_chat_history db user_id = Return entries ->
  StronglySorted ge (map Entry.timestamp entries).
Proof.
  unfold get_chat_history, recent_rows. intro H.
  apply history_entries_rows in H.
  apply (f_equal (map (fun x : str * str * nat => snd x))) in H.
  rewrite !map_map in H.
  change (map Entry.timestamp entries
          = map Conversation.created_at
                (firstn 10 (order_by_created_at_desc
                              (filter (of_user user_id)
                                      (conversation_history db))))) in H.
  rewrite H.
  apply sorted_times, firstn_sorted, order_by_created_at_desc_sorted.
Qed.

End HistoryReaders.

(** ** More on the handlers *)

Section HandlerFacts.

Variable encode : list str -> option (list Faiss.vec).
Variable normalize_L2 : Faiss.vec -> Faiss.vec.
Variable qa_pipeline : str -> str -> option str.

Local Abbreviation build := (build_semantic_index encode normalize_L2).
Local Abbreviation ensure := (ensure_index encode normalize_L2).
Local Abbreviation search := (semantic_search encode normalize_L2).
Local Abbreviation ask := (process_question encode normalize_L2 qa_pipeline).
Local Abbreviation upload := (upload_story encode normalize_L2).
Local Abbreviation delete := (delete_story encode normalize_L2).
Local Abbreviation api := (chat_api encode normalize_L2 qa_pipeline).

(** X16.  [upload_story] changes nothing when the title or the content is blank.
    Otherwise it adds one story, under the next id, with the title and the
    content trimmed, and this stands whether the rebuild that follows returns
    or raises. *)
Theorem upload_story_stores_trimmed user_id title content w :
  if truthy (strip title) && truthy (strip content) then
    stories (database (snd (upload user_id title content w)))
    = stories (database w)
      ++ [{| Story.id := stories_seq (database w) + 1;
             Story.user_id := user_id;
             Story.title := strip title;
             Story.content := strip content |}]
    /\ stories_seq (database (snd (upload user_id title content w)))
       = stories_seq (database w) + 1
  else upload user_id title content w = (Return Fields_required, w).
Proof.
  unfold upload_story.
  destruct (truthy (strip title)); destruct (truthy (strip content));
    simpl; try reflexivity.
  unfold bind, get_db, put_db.
  destruct (build _ _) as [[[]|e] w'] eqn:Hb;
    destruct (build_frame _ _ _ _ _ _ Hb) as [Hst [Hsq _]];
    simpl; now rewrite Hst, Hsq.
Qed.

(** X17.  [delete_story] changes nothing unless a story with that id belongs to
    the user.  When one does, the stories with that id are removed and all
    others stay, in their order, and this stands whether the rebuild that
    follows returns or raises. *)
Theorem delete_story_removes_own_story user_id story_id w :
  if existsb (fun s => (Story.id s =? story_id)
                       && (Story.user_id s =? user_id))
             (stories (database w))
  then
    stories (database
               (snd (delete_story encode normalize_L2 user_id story_id w)))
    = filter (fun s => negb (Story.id s =? story_id)) (stories (database w))
    /\ fst (delete_story encode normalize_L2 user_id story_id w)
       <> Return Story_not_found
  else delete_story encode normalize_L2 user_id story_id w
       = (Return Story_not_found, w).
Proof.
  unfold delete_story, bind, get_db.
  assert (E : truthy (filter (fun s => (Story.id s =? story_id)
                                       && (Story.user_id s =? user_id))
                             (stories (database w)))
              = existsb (fun s => (Story.id s =? story_id)
                                  && (Story.user_id s =? user_id))
                        (stories (database w))).
  { induction (stories (database w)) as [|s l IH]; simpl; [reflexivity|].
    destruct ((Story.id s =? story_id) && (Story.user_id s =? user_id));
      simpl; [reflexivity | exact IH]. }
  cbv beta iota. rewrite E.
  destruct (existsb _ _); cbn [negb]; cbv beta iota; [|reflexivity].
  unfold put_db. cbv beta iota.
  destruct (build user_id _) as [[[]|e] w'] eqn:Hb;
    destruct (build_frame _ _ _ _ _ _ Hb) as [Hst _];
    simpl; rewrite Hst; split; try reflexivity; discriminate.
Qed.

(** X18.  [chat_api] never raises.  It answers with the server error exactly
    when the user has stories, the engine has no index yet, and the rebuild
    raises; in every other case it sends a reply. *)
Theorem chat_api_error_only_from_first_rebuild user_id question now w :
  exists response w',
    api user_id question now w = (Return response, w')
    /\ (response = Server_error
        <-> stories_of (database w) user_id <> []
            /\ index (engine w) = None
            /\ exists e, build user_id w = (Raise e, w')).
Proof.
  unfold chat_api, try_except, bind, get_db.
  destruct (stories_of (database w) user_id) as [|s l] eqn:Hs; simpl.
  - do 2 eexists. split; [reflexivity|]. split; [discriminate|].
    intros [H _]. now contradiction H.
  - unfold ensure_index.
    destruct (index (engine w)) as [ix|] eqn:Hix.
    + destruct (process_question_returns encode normalize_L2 qa_pipeline
                  user_id question now w) as [reply [w' Ha]].
      rewrite Ha. do 2 eexists. split; [reflexivity|].
      split; [discriminate|]. intros [_ [H _]]. discriminate.
    + destruct (build user_id w) as [[[]|e] w1] eqn:Hb.
      * destruct (process_question_returns encode normalize_L2 qa_pipeline
                    user_id question now w1) as [reply [w' Ha]].
        rewrite Ha. do 2 eexists. split; [reflexivity|].
        split; [discriminate|].
        intros [_ [_ [e He]]]. discriminate.
      * do 2 eexists. split; [reflexivity|]. split; [|reflexivity].
        intros _. split; [discriminate|]. split; [reflexivity|]. now exists e.
Qed.

End HandlerFacts.

(** ** What every reachable state satisfies *)

Section Invariant.

Variable encode : list str -> option (list Faiss.vec).
Variable normalize_L2 : Faiss.vec -> Faiss.vec.
Variable qa_pipeline : str -> str -> option str.

Local Abbreviation build := (build_semantic_index encode normalize_L2).
Local Abbreviation ensure := (ensure_index encode normalize_L2).
Local Abbreviation search := (semantic_search encode normalize_L2).
Local Abbreviation ask := (process_question encode normalize_L2 qa_pipeline).
Local Abbreviation step := (handle encode normalize_L2 qa_pipeline).
Local Abbreviation run := (serve encode normalize_L2 qa_pipeline).

Lemma build_well_formed user_id w :
  well_formed w -> well_formed (snd (build user_id w)).
Proof.
  intros [Hn [Hb [Hs Hi]]].
  destruct (build_cases encode normalize_L2 user_id w)
    as [[_ E]|[[_ [e E]]|[Hm [embeddings [_ [Hl E]]]]]];
    rewrite E; simpl snd; try (now repeat split).
  unfold well_formed, install. simpl. repeat split; try assumption.
  - intro H. rewrite H in Hm. discriminate.
  - unfold Faiss.ntotal. simpl. now rewrite length_map.
Qed.

Lemma ensure_well_formed user_id w :
  well_formed w -> well_formed (snd (ensure user_id w)).
Proof.
  unfold ensure_index. destruct (index (engine w)); [trivial|].
  apply build_well_formed.
Qed.

(** The history is no part of [well_formed]. *)
Lemma save_well_formed user_id question answer sources now w :
  well_formed w ->
  well_formed (snd (save_conversation user_id question answer sources now w)).
Proof. trivial. Qed.

Lemma ask_well_formed user_id question now w :
  well_formed w -> well_formed (snd (ask user_id question now w)).
Proof.
  intro H. apply (ensure_well_formed user_id) in H.
  unfold process_question, try_except, process_question_body, bind.
  destruct (ensure user_id w) as [[[]|e] w1]; simpl snd in H; [|exact H].
  unfold get_engine, lift.
  destruct (search (engine w1) question 5) as [[|r results]|e];
    simpl; exact H.
Qed.

Lemma insert_well_formed user_id title content w :
  well_formed w ->
  well_formed {| engine := engine w;
                 database := insert_story (database w) user_id title content |}.
Proof.
  intros [Hn [Hb [Hs Hi]]]. unfold well_formed. simpl.
  repeat split; try assumption.
  - rewrite map_app. simpl. apply NoDup_app.
    + exact Hn.
    + repeat constructor. intros [].
    + intros i Hi1 [<-|[]]. apply in_map_iff in Hi1.
      destruct Hi1 as [s [Hid Hin]]. rewrite Forall_forall in Hb.
      specialize (Hb s Hin). lia.
  - apply Forall_app. split.
    + eapply Forall_impl; [|exact Hb]. simpl. intros; lia.
    + repeat constructor. simpl. lia.
Qed.

Lemma remove_well_formed story_id w :
  well_formed w ->
  well_formed {| engine := engine w;
                 database := remove_story (database w) story_id |}.
Proof.
  intros [Hn [Hb [Hs Hi]]]. unfold well_formed. simpl.
  repeat split; try assumption.
  - now apply NoDup_ids_filter.
  - rewrite Forall_forall in *. intros s Hin. apply filter_In in Hin.
    apply Hb. tauto.
Qed.

Lemma handle_well_formed w r : well_formed w -> well_formed (step w r).
Proof.
  intro H. destruct r as [u|u title content|u story_id|u question now]; simpl.
  - now apply build_well_formed.
  - unfold upload_story.
    destruct (negb (truthy (strip title)) || negb (truthy (strip content)));
      [exact H|].
    unfold bind, get_db, put_db.
    pose proof (build_well_formed u _
                  (insert_well_formed u (strip title) (strip content) w H))
      as H'.
    destruct (build u _) as [[[]|e] w']; exact H'.
  - unfold delete_story, bind, get_db.
    destruct (negb (truthy _)); [exact H|].
    unfold put_db.
    pose proof (build_well_formed u _ (remove_well_formed story_id w H)) as H'.
    destruct (build u _) as [[[]|e] w']; exact H'.
  - unfold chat_api, try_except, bind, get_db.
    destruct (length (stories_of (database w) u) =? 0)%nat; [exact H|].
    pose proof (ensure_well_formed u w H) as H1.
    destruct (ensure u w) as [[[]|e] w1]; simpl snd in H1; [|exact H1].
    pose proof (ask_well_formed u question now w1 H1) as H2.
    destruct (ask u question now w1) as [[reply|e] w2]; exact H2.
Qed.

Lemma serve_well_formed w requests :
  well_formed w -> well_formed (run w requests).
Proof.
  unfold serve. revert w.
  induction requests as [|r requests IH]; intros w H; simpl; [exact H|].
  apply IH. now apply handle_well_formed.
Qed.

Lemma initial_well_formed : well_formed initial.
Proof. unfold well_formed, initial. simpl. repeat split; constructor. Qed.

(** X19.  Serving requests keeps the state well formed: story ids stay distinct
    and never above the last one given out, the chunk size stays 512, and the
    engine holds chunks exactly when it holds an index, which has at least
    one row per chunk.  The state at start is well formed. *)
Theorem requests_keep_state_well_formed w (requests : list request) :
  well_formed w -> well_formed (run w requests).
Proof. apply serve_well_formed. Qed.

Lemma collect_results_returns chunks hits :
  chunks <> [] ->
  Forall (fun h : Faiss.hit => -1 <= snd h) hits ->
  exists results, collect_results chunks hits = Return results.
Proof.
  intros Hne. induction 1 as [|[score idx] hits Hh Hall [results IH]].
  - now exists [].
  - simpl in *. destruct (Z.ltb_spec idx (Z.of_nat (length chunks))).
    + destruct (getitem_in_range chunks idx) as [c Hc]; [lia | exact Hne|].
      rewrite Hc, IH. eauto.
    + eauto.
Qed.

(** X20.  The process starts without an index; the embedding model gives
    vectors of one positive length, which normalising keeps.  Then, after any
    requests, a search for at least one result raises only when the embedding
    model fails on the question or gives no vector for it: the labels FAISS
    returns never make [self.story_chunks[idx]] raise. *)
Theorem search_raises_only_on_embedding
  w (requests : list request) query top_k dim :
  well_formed w ->
  index (engine w) = None ->
  (0 < dim)%nat ->
  (forall texts vectors,
      encode texts = Some vectors ->
      Forall (fun v => length v = dim) vectors) ->
  (forall v, length (normalize_L2 v) = length v) ->
  (0 < top_k)%nat ->
  (exists results,
      search (engine (run w requests)) query top_k = Return results)
  \/ encode [query] = None
  \/ encode [query] = Some [].
Proof.
  intros Hw _ _ _ _ _.
  destruct (serve_well_formed w requests Hw) as [_ [_ [_ Hi]]].
  unfold semantic_search, generate_embeddings.
  destruct (index (engine (run w requests))) as [ix|]; [|left; eauto].
  destruct Hi as [Hne _].
  destruct (engine_chunks (engine (run w requests))) as [|c cs] eqn:Hc;
    [contradiction|].
  cbn [truthy negb].
  destruct (encode [query]) as [[|q qs]|]; [right; now right | | right; now left].
  left. cbn [map]. apply collect_results_returns; [discriminate|].
  apply Forall_forall. intros h Hh.
  apply (faiss_search_labels ix (normalize_L2 q) top_k h Hh).
Qed.

End Invariant.

(** ** Accounts *)

Section AccountFacts.

Variable isalnum : str -> bool.
Variable lower : str -> str.
Variable email_matches : str -> bool.
Variable generate_password_hash : str -> str.
Variable check_password_hash : str -> str -> bool.
Variable generate_token : Z -> str.

Local Abbreviation signup :=
  (register isalnum lower email_matches generate_password_hash).
Local Abbreviation signin := (login check_password_hash generate_token).
Local Abbreviation errors_of := (register_errors isalnum email_matches).

Lemma str_eqb_eq a b : str_eqb a b = true <-> a = b.
Proof.
  revert b. induction a as [|x a IH]; intros [|y b]; simpl;
    try (split; [discriminate | discriminate]); [tauto|].
  rewrite andb_true_iff, N.eqb_eq, IH. split.
  - intros [-> ->]. reflexivity.
  - intro H. inversion H. auto.
Qed.

Lemma str_eqb_refl a : str_eqb a a = true.
Proof. now apply str_eqb_eq. Qed.

(** The user [register] adds. *)
Local Abbreviation new_user username email password a :=
  {| User.id := users_seq a + 1;
     User.username := strip username;
     User.email := lower (strip email);
     User.password_hash := generate_password_hash password |}.

Lemma no_errors_validated username email password :
  (0 <? length (errors_of username email password))%nat = false ->
  (3 <= length username <= 20)%nat
  /\ isalnum username = true
  /\ email_matches email = true
  /\ (6 <= length password)%nat.
Proof.
  unfold register_errors. intro H.
  destruct (Nat.ltb_spec (length username) 3);
    destruct (Nat.ltb_spec 20 (length username));
    destruct (isalnum username); destruct (email_matches email);
    destruct (Nat.ltb_spec (length password) 6);
    simpl in H; try discriminate.
  repeat split; lia.
Qed.

(** X21.  [register] adds a user only when the trimmed user name has 3 to 20
    characters and is alphanumeric, the trimmed and lowered address matches
    the pattern and the password has at least 6 characters; the user is then
    appended with a hashed password and the next id.  In every other case
    the accounts are unchanged. *)
Theorem register_validates username email password a :
  match signup username email password a with
  | (Register_done, a') =>
      (3 <= length (strip username) <= 20)%nat
      /\ isalnum (strip username) = true
      /\ email_matches (lower (strip email)) = true
      /\ (6 <= length password)%nat
      /\ users a' = users a ++ [new_user username email password a]
  | (_, a') => a' = a
  end.
Proof.
  unfold register.
  destruct (0 <? length (errors_of (strip username) (lower (strip email))
                                   password))%nat eqn:He; [reflexivity|].
  destruct (truthy _); [reflexivity|].
  destruct (no_errors_validated _ _ _ He) as [H1 [H2 [H3 H4]]].
  repeat split; try assumption; lia.
Qed.

Lemma no_existing_user a username email u :
  existing_users a username email = [] ->
  In u (users a) ->
  User.username u <> username /\ User.email u <> email.
Proof.
  unfold existing_users. intros He Hin.
  assert (Hf : (str_eqb (User.username u) username
                || str_eqb (User.email u) email) = false).
  { destruct (str_eqb (User.username u) username
              || str_eqb (User.email u) email) eqn:E; [|reflexivity].
    assert (Hu : In u (filter (fun u => str_eqb (User.username u) username
                                        || str_eqb (User.email u) email)
                              (users a))) by (apply filter_In; auto).
    rewrite He in Hu. contradiction. }
  apply orb_false_iff in Hf. destruct Hf as [H1 H2].
  split; intro H; apply str_eqb_eq in H; congruence.
Qed.

Lemma no_user_named a username email :
  existing_users a username email = [] ->
  filter (fun u => str_eqb (User.username u) username) (users a) = [].
Proof.
  intro Hex.
  assert (H : forall u, In u (users a) ->
                        str_eqb (User.username u) username = false).
  { intros u Hin. destruct (no_existing_user _ _ _ _ Hex Hin) as [Hu _].
    destruct (str_eqb (User.username u) username) eqn:E; [|reflexivity].
    apply str_eqb_eq in E. contradiction. }
  induction (users a) as [|u l IH]; simpl; [reflexivity|].
  rewrite (H u (or_introl eq_refl)). apply IH.
  intros u' Hu'. apply H. now right.
Qed.

(** X22.  [register] keeps user names, addresses and ids distinct. *)
Theorem register_keeps_accounts_distinct username email password a :
  accounts_distinct a ->
  accounts_distinct (snd (signup username email password a)).
Proof.
  intros [Hn [He [Hi Hb]]]. unfold register.
  destruct (0 <? length _)%nat; [now repeat split|].
  destruct (existing_users a (strip username) (lower (strip email)))
    as [|u l] eqn:Hex; [|now repeat split].
  cbn [truthy snd]. unfold accounts_distinct. cbn [users users_seq].
  rewrite !map_app. cbn [map User.username User.email User.id].
  repeat split.
  - apply NoDup_app; [exact Hn | repeat constructor; intros [] |].
    intros x Hx [<-|[]]. apply in_map_iff in Hx. destruct Hx as [u [Hu Hin]].
    destruct (no_existing_user _ _ _ _ Hex Hin) as [H _]. contradiction.
  - apply NoDup_app; [exact He | repeat constructor; intros [] |].
    intros x Hx [<-|[]]. apply in_map_iff in Hx. destruct Hx as [u [Hu Hin]].
    destruct (no_existing_user _ _ _ _ Hex Hin) as [_ H]. contradiction.
  - apply NoDup_app; [exact Hi | repeat constructor; intros [] |].
    intros x Hx [<-|[]]. apply in_map_iff in Hx. destruct Hx as [u [Hu Hin]].
    rewrite Forall_forall in Hb. specialize (Hb u Hin). lia.
  - apply Forall_app. split.
    + eapply Forall_impl; [|exact Hb]. simpl. intros; lia.
    + repeat constructor. simpl. lia.
Qed.

(** X23.  A user who has just registered can log in with the same form fields,
    provided the hash library verifies the password it hashed; the token is
    the one of the new id. *)
Theorem register_then_login username email password a a' :
  signup username email password a = (Register_done, a') ->
  check_password_hash (generate_password_hash password) password = true ->
  signin username password a'
  = Some (generate_token (users_seq a + 1)).
Proof.
  unfold register. intros H Hc.
  destruct (0 <? length _)%nat; [discriminate|].
  destruct (existing_users a (strip username) (lower (strip email)))
    as [|u l] eqn:Hex; [|discriminate].
  cbn [truthy] in H. inversion H. subst a'. clear H.
  unfold login. cbn [users]. rewrite filter_app.
  rewrite (no_user_named _ _ _ Hex). simpl.
  rewrite str_eqb_refl. cbn [User.password_hash User.id]. now rewrite Hc.
Qed.

(** X24.  [login] hands out a token only for a user of that name whose stored
    hash the hash library accepts for the password. *)
Theorem login_checks_password username password a token :
  signin username password a = Some token ->
  exists u, In u (users a)
            /\ User.username u = strip username
            /\ check_password_hash (User.password_hash u) password = true
            /\ token = generate_token (User.id u).
Proof.
  unfold login.
  destruct (filter _ (users a)) as [|u l] eqn:Hf; [discriminate|].
  destruct (check_password_hash _ _) eqn:Hc; [|discriminate].
  intro H. inversion H. exists u.
  assert (Hin : In u (filter (fun u => str_eqb (User.username u)
                                               (strip username))
                             (users a))) by (rewrite Hf; now left).
  apply filter_In in Hin. destruct Hin as [Hin Hu].
  apply str_eqb_eq in Hu. auto.
Qed.

End AccountFacts.

(** ** More runs on concrete inputs *)

Module MoreScenarios.

Import Stub.

Local Abbreviation build := (build_semantic_index encode normalize_L2).
Local Abbreviation search := (semantic_search encode normalize_L2).

Lemma rebuild_rows_match_index_witness :
  build 1 (start one_user) = (Return tt, indexed_one)
  /\ truthy (user_metadata (chunk_size (engine (start one_user)))
                           (database (start one_user)) 1) = true
  /\ map (fun r => (ChunkRow.story_id r, ChunkRow.chunk_index r,
                    ChunkRow.chunk_text r))
         (story_chunks (database indexed_one))
     = [(1, 0%nat, cats_chunk)].
Proof.
  assert (H1 : build 1 (start one_user) = (Return tt, indexed_one))
    by (vm_compute; reflexivity).
  assert (H2 : truthy (user_metadata (chunk_size (engine (start one_user)))
                                     (database (start one_user)) 1) = true)
    by (vm_compute; reflexivity).
  refine (conj H1 (conj H2 _)).
  destruct (rebuild_rows_match_index encode normalize_L2
              1 (start one_user) indexed_one H1 H2) as [Hrows _].
  vm_compute in Hrows. vm_compute. exact Hrows.
Defined.

Lemma search_returns_at_most_top_k_witness :
  search (engine indexed_one) what 5 = Return cats_hits
  /\ (length cats_hits <= 5)%nat.
Proof.
  assert (H1 : search (engine indexed_one) what 5 = Return cats_hits)
    by (vm_compute; reflexivity).
  refine (conj H1 _).
  exact (search_returns_at_most_top_k encode normalize_L2
           (engine indexed_one) what 5%nat cats_hits H1).
Defined.

Lemma ask_with_embedding_down_witness :
  index (engine indexed_one)
  = Some {| Faiss.d := 1; Faiss.xb := [[inject_Z 1]] |}
  /\ truthy (engine_chunks (engine indexed_one)) = true
  /\ encode_fails [what] = None
  /\ process_question encode_fails normalize_L2 qa_pipeline 1 what 0%nat
                      indexed_one
     = (Return {| Reply.answer := error_answer; Reply.sources := [];
                  Reply.confidence := None |}, indexed_one).
Proof.
  assert (H1 : index (engine indexed_one)
               = Some {| Faiss.d := 1; Faiss.xb := [[inject_Z 1]] |})
    by (vm_compute; reflexivity).
  assert (H2 : truthy (engine_chunks (engine indexed_one)) = true)
    by (vm_compute; reflexivity).
  assert (H3 : encode_fails [what] = None) by reflexivity.
  refine (conj H1 (conj H2 (conj H3 _))).
  exact (ask_with_embedding_down encode_fails normalize_L2 qa_pipeline
           1 what 0%nat indexed_one _ H1 H2 H3).
Defined.

Lemma ask_without_stories_witness :
  index (engine (start nobody)) = None
  /\ stories_of (database (start nobody)) 1 = []
  /\ process_question encode_fails normalize_L2 qa_fails 1 what 0%nat
                      (start nobody)
     = (Return {| Reply.answer := no_information_answer; Reply.sources := [];
                  Reply.confidence := None |}, start nobody).
Proof.
  assert (H1 : index (engine (start nobody)) = None) by reflexivity.
  assert (H2 : stories_of (database (start nobody)) 1 = []) by reflexivity.
  refine (conj H1 (conj H2 _)).
  exact (ask_without_stories encode_fails normalize_L2 qa_fails
           1 what 0%nat (start nobody) H1 H2).
Defined.

Lemma two_users_ids_distinct :
  NoDup (map Story.id (stories (database (start two_users)))).
Proof.
  simpl. repeat constructor; simpl; intuition discriminate.
Defined.

Lemma ask_names_at_most_three_stories_witness :
  NoDup (map Story.id (stories (database (start two_users))))
  /\ exists reply w',
       process_question encode normalize_L2 qa_pipeline 1 what 0%nat
                        (start two_users) = (Return reply, w')
       /\ (length (Reply.sources reply) <= 3)%nat
       /\ Forall (fun t => exists s,
                      In s (stories (database (start two_users)))
                      /\ Story.title s = t)
                 (Reply.sources reply).
Proof.
  refine (conj two_users_ids_distinct _).
  exact (ask_names_at_most_three_stories encode normalize_L2 qa_pipeline
           1 what 0%nat (start two_users) two_users_ids_distinct).
Defined.

Local Abbreviation last_entry :=
  {| Entry.question := what; Entry.answer := lit "an answer";
     Entry.sources := [lit "Cats"]; Entry.timestamp := 3%nat |}.

Lemma other_users_history_untouched_witness :
  2 <> 1
  /\ get_chat_history
       (database (snd (save_conversation 1 what fallback_answer odd_titles
                                         4%nat asked_once))) 2
     = get_chat_history (database asked_once) 2.
Proof.
  assert (H1 : 2 <> 1) by lia.
  refine (conj H1 _).
  exact (proj1 (other_users_history_untouched 1 2 what fallback_answer
                  odd_titles 4%nat asked_once H1)).
Defined.

Lemma conversation_context_is_bounded_witness :
  0 <= 5
  /\ (length (get_conversation_context (database asked_once) 1 5)
      <= Z.to_nat 5)%nat.
Proof.
  assert (H1 : 0 <= 5) by lia.
  refine (conj H1 _).
  exact (proj1 (conversation_context_is_bounded (database asked_once) 1 5 H1)).
Defined.

Lemma history_readers_agree_witness :
  get_chat_history (database asked_once) 1 = Return [last_entry]
  /\ map (fun e => (Entry.question e, Entry.answer e)) [last_entry]
     = map (fun t => (Turn.question t, Turn.answer t))
           (get_conversation_context (database asked_once) 1 10).
Proof.
  assert (H1 : get_chat_history (database asked_once) 1 = Return [last_entry])
    by (vm_compute; reflexivity).
  refine (conj H1 _).
  exact (proj1 (history_readers_agree (database asked_once) 1 _ H1)).
Defined.

Lemma history_is_newest_first_witness :
  get_chat_history (database asked_once) 1 = Return [last_entry]
  /\ StronglySorted ge (map Entry.timestamp [last_entry]).
Proof.
  assert (H1 : get_chat_history (database asked_once) 1 = Return [last_entry])
    by (vm_compute; reflexivity).
  refine (conj H1 _).
  exact (history_is_newest_first (database asked_once) 1 _ H1).
Defined.

Lemma requests_keep_state_well_formed_witness :
  well_formed initial
  /\ well_formed (serve encode normalize_L2 qa_pipeline initial session).
Proof.
  refine (conj initial_well_formed _).
  exact (requests_keep_state_well_formed encode normalize_L2 qa_pipeline
           initial session initial_well_formed).
Defined.

Lemma stub_vectors_have_length_one texts vectors :
  encode texts = Some vectors -> Forall (fun v => length v = 1%nat) vectors.
Proof.
  unfold encode. intro H. inversion H. apply Forall_forall.
  intros v Hv. apply in_map_iff in Hv. destruct Hv as [t [<- _]].
  repeat match goal with
         | |- context [match ?x with _ => _ end] => destruct x
         end; reflexivity.
Qed.

Lemma stub_normalize_keeps_length v : length (normalize_L2 v) = length v.
Proof. destruct v as [|x [|y v]]; reflexivity. Qed.

Lemma search_raises_only_on_embedding_witness :
  well_formed initial
  /\ index (engine initial) = None
  /\ (0 < 1)%nat
  /\ (0 < 5)%nat
  /\ ((exists results,
         search (engine (serve encode normalize_L2 qa_pipeline initial session))
                what 5 = Return results)
      \/ encode [what] = None
      \/ encode [what] = Some []).
Proof.
  assert (H1 : index (engine initial) = None) by reflexivity.
  assert (H2 : (0 < 1)%nat) by lia.
  assert (H3 : (0 < 5)%nat) by lia.
  refine (conj initial_well_formed (conj H1 (conj H2 (conj H3 _)))).
  exact (search_raises_only_on_embedding encode normalize_L2 qa_pipeline
           initial session what 5%nat 1%nat initial_well_formed H1 H2
           stub_vectors_have_length_one stub_normalize_keeps_length H3).
Defined.

Import AccountStub.

Local Abbreviation signup :=
  (register isalnum lower email_matches generate_password_hash).

Lemma nobody_distinct : accounts_distinct AccountStub.nobody.
Proof. unfold accounts_distinct. simpl. repeat split; constructor. Defined.

Lemma register_keeps_accounts_distinct_witness :
  accounts_distinct AccountStub.nobody
  /\ accounts_distinct alice_registered.
Proof.
  refine (conj nobody_distinct _).
  exact (register_keeps_accounts_distinct isalnum lower email_matches
           generate_password_hash
           (lit "  alice ") (lit " Alice@Example.org") (lit "secret1")
           AccountStub.nobody nobody_distinct).
Defined.

Lemma register_then_login_witness :
  signup (lit "  alice ") (lit " Alice@Example.org") (lit "secret1")
         AccountStub.nobody
  = (Register_done, alice_registered)
  /\ check_password_hash (generate_password_hash (lit "secret1"))
                         (lit "secret1") = true
  /\ login check_password_hash generate_token
           (lit "  alice ") (lit "secret1") alice_registered
     = Some (generate_token 1).
Proof.
  assert (H1 : signup (lit "  alice ") (lit " Alice@Example.org")
                      (lit "secret1") AccountStub.nobody
               = (Register_done, alice_registered))
    by (vm_compute; reflexivity).
  assert (H2 : check_password_hash (generate_password_hash (lit "secret1"))
                                   (lit "secret1") = true)
    by (vm_compute; reflexivity).
  refine (conj H1 (conj H2 _)).
  exact (register_then_login isalnum lower email_matches
           generate_password_hash check_password_hash generate_token
           (lit "  alice ") (lit " Alice@Example.org") (lit "secret1")
           AccountStub.nobody alice_registered H1 H2).
Defined.

Lemma login_checks_password_witness :
  login check_password_hash generate_token
        (lit "alice") (lit "secret1") alice_registered
  = Some (generate_token 1)
  /\ exists u, In u (users alice_registered)
               /\ User.username u = strip (lit "alice")
               /\ check_password_hash (User.password_hash u) (lit "secret1")
                  = true
               /\ generate_token 1 = generate_token (User.id u).
Proof.
  assert (H1 : login check_password_hash generate_token
                     (lit "alice") (lit "secret1") alice_registered
               = Some (generate_token 1)) by (vm_compute; reflexivity).
  refine (conj H1 _).
  exact (login_checks_password check_password_hash generate_token
           (lit "alice") (lit "secret1") alice_registered _ H1).
Defined.

End MoreScenarios.
